(** * Router and module loader of the sports-management SPA shell

    A shallow embedding of [js/router.js] and of the module loading part of
    [js/app.js], with the properties of the navigation core stated and
    proved over it.

    Conventions of the embedding.

    - A JavaScript string is represented by the bytes of its UTF-8 encoding
      (a Rocq [string]).  [encodeURIComponent] works on exactly these bytes.
      A string holding a lone surrogate has no UTF-8 encoding and is outside
      the model.
    - A plain object used as a dictionary ([params], [query]) and the
      [Map]s [routes] and [loadedModules] are finite maps.
    - An [async] method is followed to the completion of its promise; a
      nested call that the source does not [await] is followed to completion
      as well and its result dropped.  The continuation of such a nested
      [navigate] is queued before the continuation of whoever awaits the
      outer promise, so the router fields it writes are the ones the awaiting
      caller reads.
    - [navigate] is the call by itself.  In hash mode its assignment to
      [window.location.hash] wakes the router's own [hashchange] and
      [popstate] listeners, which start a navigation of their own from the
      address.  They are followed apart, on a [Page] that holds the address
      next to the two classes ([navigateOnPage], [onHashChange], [listen]).
    - DOM work is recorded in a trace of events; it does not throw. *)

From Stdlib Require Import Ascii NArith.
From stdpp Require Import base option list strings gmap fin_maps.

Local Open Scope N_scope.

(** ** Strings *)

Module Str.

(** [s.split(sep)] for a one-character separator. *)
Fixpoint split (sep : ascii) (s : string) : list string :=
  match s with
  | "" => [""]
  | String c s' =>
      if decide (c = sep) then "" :: split sep s'
      else match split sep s' with
           | piece :: pieces => String c piece :: pieces
           | [] => [String c ""]
           end
  end.

(** [parts.join(sep)]. *)
Fixpoint join (sep : string) (parts : list string) : string :=
  match parts with
  | [] => ""
  | [p] => p
  | p :: rest => p +:+ sep +:+ join sep rest
  end.

(** [s.startsWith(c)] for a one-character prefix. *)
Definition startsWith (c : ascii) (s : string) : bool :=
  match s with
  | String c' _ => bool_decide (c' = c)
  | "" => false
  end.

(** [s.substring(1)], for a string that is empty or starts with a character
    of one byte (the source applies it after [#], [/] or [?]). *)
Definition substring1 (s : string) : string :=
  match s with
  | String _ s' => s'
  | "" => ""
  end.

(** Truthiness of a string: only the empty string is falsy. *)
Definition truthy (s : string) : bool :=
  match s with
  | "" => false
  | _ => true
  end.

(** [s.replace(c, '')] for a one-character pattern: the first occurrence
    goes. *)
Fixpoint removeFirst (c : ascii) (s : string) : string :=
  match s with
  | "" => ""
  | String c' s' => if decide (c' = c) then s' else String c' (removeFirst c s')
  end.

(** [c] does not occur in [s]. *)
Fixpoint lacks (c : ascii) (s : string) : bool :=
  match s with
  | "" => true
  | String c' s' => bool_decide (c' ≠ c) && lacks c s'
  end.

End Str.

(** ** Percent-encoding ([encodeURIComponent], [decodeURIComponent]) *)

Module Uri.

Definition between (lo hi n : N) : bool := (lo <=? n) && (n <=? hi).

(** The characters [encodeURIComponent] leaves alone:
    [A-Z a-z 0-9 - _ . ! ~ * ' ( )]. *)
Definition unreserved (c : ascii) : bool :=
  let n := N_of_ascii c in
  between 65 90 n || between 97 122 n || between 48 57 n
  || bool_decide (c ∈ ["-"; "_"; "."; "!"; "~"; "*"; "'"; "("; ")"]%char).

(** Upper-case hexadecimal digit of a value below 16. *)
Definition hexDigit (n : N) : ascii :=
  if n <? 10 then ascii_of_N (48 + n) else ascii_of_N (55 + n).

(** Value of a hexadecimal digit, either case. *)
Definition hexValue (c : ascii) : option N :=
  let n := N_of_ascii c in
  if between 48 57 n then Some (n - 48)
  else if between 65 70 n then Some (n - 55)
  else if between 97 102 n then Some (n - 87)
  else None.

Definition escape (c : ascii) : string :=
  let n := N_of_ascii c in
  String "%" (String (hexDigit (n / 16)) (String (hexDigit (n mod 16)) "")).

Fixpoint encodeURIComponent (s : string) : string :=
  match s with
  | "" => ""
  | String c s' =>
      if unreserved c then String c (encodeURIComponent s')
      else escape c +:+ encodeURIComponent s'
  end.

(** Replaces every [%XX] by the byte it denotes; [None] is the [URIError]
    raised for a [%] that is not followed by two hexadecimal digits. *)
Fixpoint unescape (s : string) : option string :=
  match s with
  | "" => Some ""
  | String "%" (String h (String l rest)) =>
      hi ← hexValue h; lo ← hexValue l;
      String (ascii_of_N (16 * hi + lo)) <$> unescape rest
  | String "%" _ => None
  | String c rest => String c <$> unescape rest
  end.

Definition continuation (c : ascii) : bool := between 128 191 (N_of_ascii c).

(** Well-formed UTF-8 (no overlong forms, no surrogates, nothing above
    U+10FFFF). *)
Fixpoint utf8 (s : string) : bool :=
  match s with
  | "" => true
  | String b0 s1 =>
      let n0 := N_of_ascii b0 in
      if n0 <? 128 then utf8 s1
      else if between 194 223 n0 then
        match s1 with
        | String b1 s2 => continuation b1 && utf8 s2
        | _ => false
        end
      else if between 224 239 n0 then
        match s1 with
        | String b1 (String b2 s3) =>
            let n1 := N_of_ascii b1 in
            (if n0 =? 224 then between 160 191 n1
             else if n0 =? 237 then between 128 159 n1
             else between 128 191 n1)
            && continuation b2 && utf8 s3
        | _ => false
        end
      else if between 240 244 n0 then
        match s1 with
        | String b1 (String b2 (String b3 s4)) =>
            let n1 := N_of_ascii b1 in
            (if n0 =? 240 then between 144 191 n1
             else if n0 =? 244 then between 128 143 n1
             else between 128 191 n1)
            && continuation b2 && continuation b3 && utf8 s4
        | _ => false
        end
      else false
  end.

(** [decodeURIComponent]: the escapes are resolved and the bytes they
    yield must form well-formed UTF-8, otherwise [URIError] ([None]). *)
Definition decodeURIComponent (s : string) : option string :=
  bytes ← unescape s;
  if utf8 bytes then Some bytes else None.

End Uri.

(** ** Query strings ([parseQueryString], [buildQueryString]) *)

(** A value held by a [params] or [query] object: a string, [true], or
    [null]/[undefined]. *)
Inductive Value :=
  | VString (s : string)
  | VTrue
  | VNullish.

(** [array.forEach(f)] with an accumulator for the state [f] writes; a
    [None] is an exception leaving the loop. *)
Fixpoint forEach {S A : Type} (f : S → A → option S) (s : S) (l : list A)
  : option S :=
  match l with
  | [] => Some s
  | x :: l' => s' ← f s x; forEach f s' l'
  end.

Module Query.

(** [params[k] = v] on an object created by a literal, for [v] a string or
    [true].  The key [__proto__] reaches the accessor inherited from
    [Object.prototype], whose setter ignores a primitive and creates no
    property. *)
Definition assign (params : gmap string Value) (k : string) (v : Value)
  : gmap string Value :=
  if decide (k = "__proto__") then params else <[k := v]> params.

(** The body of the [forEach] callback of [parseQueryString]:
    [const [key, value] = param.split('=')], then the guarded assignment. *)
Definition parseParam (params : gmap string Value) (param : string)
  : option (gmap string Value) :=
  match Str.split "=" param with
  | key :: rest =>
      if Str.truthy key then
        k ← Uri.decodeURIComponent key;
        v ← match rest with
            | value :: _ =>
                if Str.truthy value
                then VString <$> Uri.decodeURIComponent value
                else Some VTrue
            | [] => Some VTrue
            end;
        Some (assign params k v)
      else Some params
  | [] => Some params
  end.

Definition parseQueryString (queryString : string)
  : option (gmap string Value) :=
  if Str.truthy queryString
  then forEach parseParam ∅ (Str.split "&" queryString)
  else Some ∅.

(** What the [forEach] callback of [buildQueryString] pushes for one entry,
    if anything. *)
Definition queryPart (entry : string * Value) : option string :=
  match entry.2 with
  | VNullish => None
  | VTrue => Some (Uri.encodeURIComponent entry.1)
  | VString s =>
      Some (Uri.encodeURIComponent entry.1 +:+ "=" +:+ Uri.encodeURIComponent s)
  end.

(** [Object.entries(params)] is the list of the entries of the map, in the
    order the map enumerates them (not the insertion order of the object;
    no statement below depends on the order). *)
Definition buildQueryString (params : gmap string Value) : string :=
  match omap queryPart (map_to_list params) with
  | [] => ""
  | queryParts => "?" +:+ Str.join "&" queryParts
  end.

(** The entries a query string carries faithfully: a key that is a
    well-formed string, not empty and not [__proto__], with the value [true]
    or a well-formed string that is not empty. *)
Definition portable (k : string) (v : Value) : Prop :=
  k ≠ "" ∧ k ≠ "__proto__" ∧ Uri.utf8 k = true ∧
  match v with
  | VTrue => True
  | VString s => s ≠ "" ∧ Uri.utf8 s = true
  | VNullish => False
  end.

End Query.

(** ** Data model *)

Record Route := mkRoute {
  route_id : string;
  route_path : string;
  route_module : string;
  route_title : string;
  route_description : string;
  route_icon : string;
  route_requiresAuth : bool;
  route_params : gmap string Value;
  route_query : gmap string Value
}.

(** The [routeConfig] argument of [registerRoute]; an absent property is
    [None]. *)
Record RouteConfig := mkRouteConfig {
  config_path : option string;
  config_module : option string;
  config_title : option string;
  config_description : option string;
  config_icon : option string;
  config_requiresAuth : option bool
}.

Record HistoryEntry := mkHistoryEntry {
  entry_id : string;
  entry_params : gmap string Value;
  entry_query : gmap string Value;
  entry_timestamp : N
}.

(** [this.config] of the router, the two settings [navigate] reads. *)
Record RouterConfig := mkRouterConfig {
  hashMode : bool;
  config_scrollToTop : bool
}.

Record Router := mkRouter {
  routes : gmap string Route;
  currentRoute : option Route;
  history : list HistoryEntry;
  maxHistorySize : nat;
  config : RouterConfig
}.

Record MenuItem := mkMenuItem {
  item_module : string;
  item_url : string;
  item_label : string;
  item_description : option string;
  item_icon : option string;
  item_active : bool;
  item_requiresAuth : bool
}.

(** [data/menu-config.json]: the items, [settings.defaultModule] and
    [application.title] ([None] when [application] is absent). *)
Record MenuConfig := mkMenuConfig {
  menuItems : list MenuItem;
  settings_defaultModule : option string;
  application_title : option string
}.

(** A module instance is named by the global constructor that built it. *)
Definition Instance := string.

Record ModuleEntry := mkModuleEntry {
  entry_html : string;
  entry_instance : option Instance
}.

Record App := mkApp {
  menuConfig : option MenuConfig;
  loadedModules : gmap string ModuleEntry;
  currentModule : option string
}.

(** What a call does to the browser, in order.  [Address url] is the step of
    [updateURL] that makes [url] the address (assigned to the hash, or pushed
    on the browser history, unless the address reads [url] already);
    [PushState] is the unconditional [history.pushState] of
    [navigateToModule]. *)
Inductive Event :=
  | FetchFile (url : string)
  | LoadScript (url : string)
  | Render (html : string) (instance : option Instance)
  | ShowError (message : string)
  | Address (url : string)
  | PushState (url : string)
  | Title (title : string)
  | ScrollToTop
  | Dispatch (name : string) (current : Route) (previous : option Route)
      (timestamp : N).

Record World := mkWorld {
  router : Router;
  app : App;
  trace : list Event
}.

(** How a call that may throw completes. *)
Inductive Result (A : Type) :=
  | Returned (a : A)
  | Thrown (message : string).
Arguments Returned {A} a.
Arguments Thrown {A} message.

(** The collaborators outside the two classes: the asset loader of
    [version.js] as seen by [loadModule], the lookup and construction of the
    module class in the global namespace, and the clock. *)
Record Env := mkEnv {
  loadVersionedFile : string → Result string;
  loadVersionedScript : string → bool;
  instantiate : string → option Instance;
  dateNow : N
}.

(** The two methods of the router left to be filled in by the application. *)
Class Hooks := mkHooks {
  checkAuthentication : Router → bool;
  executeBeforeNavigationHooks : Router → Route → bool
}.

(** The bodies the source gives them: both answer [true]. *)
Definition sourceHooks : Hooks :=
  {| checkAuthentication := λ _, true;
     executeBeforeNavigationHooks := λ _ _, true |}.

(** The source's hook chain with another authentication check. *)
Definition withAuthentication (check : Router → bool) : Hooks :=
  {| checkAuthentication := check;
     executeBeforeNavigationHooks := λ _ _, true |}.

(** [a || b] on an optional string: [a] when it is present and not empty. *)
Definition orElse (a : option string) (b : string) : string :=
  match a with
  | Some s => if Str.truthy s then s else b
  | None => b
  end.

Definition log (e : Event) (w : World) : World :=
  mkWorld (router w) (app w) (trace w ++ [e]).

Definition withRouter (r : Router) (w : World) : World :=
  mkWorld r (app w) (trace w).

Definition withApp (a : App) (w : World) : World :=
  mkWorld (router w) a (trace w).

Definition setCurrentRoute (route : option Route) (r : Router) : Router :=
  mkRouter (routes r) route (history r) (maxHistorySize r) (config r).

Definition setHistory (entries : list HistoryEntry) (r : Router) : Router :=
  mkRouter (routes r) (currentRoute r) entries (maxHistorySize r) (config r).

Definition setRoutes (table : gmap string Route) (r : Router) : Router :=
  mkRouter table (currentRoute r) (history r) (maxHistorySize r) (config r).

Definition setLoadedModules (cache : gmap string ModuleEntry) (a : App) : App :=
  mkApp (menuConfig a) cache (currentModule a).

Definition setCurrentModule (moduleId : option string) (a : App) : App :=
  mkApp (menuConfig a) (loadedModules a) moduleId.

(** ** Router *)

(** The fields as the constructor sets them, before [init] runs. *)
Definition newRouter : Router :=
  {| routes := ∅; currentRoute := None; history := []; maxHistorySize := 50;
     config := {| hashMode := true; config_scrollToTop := true |} |}.

Definition normalizePath (path : string) : string :=
  if Str.startsWith "#" path then Str.substring1 path else path.

Definition registerRoute (r : Router) (routeId : string)
    (routeConfig : RouteConfig) : Result Router :=
  match config_module routeConfig with
  | Some module =>
      if Str.truthy module then
        let path := normalizePath (orElse (config_path routeConfig) routeId) in
        let route :=
          {| route_id := routeId;
             route_path := path;
             route_module := module;
             route_title := orElse (config_title routeConfig) routeId;
             route_description := orElse (config_description routeConfig) "";
             route_icon := orElse (config_icon routeConfig) "fas fa-page";
             route_requiresAuth :=
               default false (config_requiresAuth routeConfig);
             route_params := ∅;
             route_query := ∅ |} in
        Returned (setRoutes (<[routeId := route]> (routes r)) r)
      else Thrown ("Configuration de route invalide pour: " +:+ routeId)
  | None => Thrown ("Configuration de route invalide pour: " +:+ routeId)
  end.

(** The configuration [registerRoutesFromConfig] passes for a menu item. *)
Definition routeConfigOf (item : MenuItem) : RouteConfig :=
  {| config_path := Some (Str.removeFirst "#" (item_url item));
     config_module := Some (item_module item);
     config_title := Some (item_label item);
     config_description := item_description item;
     config_icon := item_icon item;
     config_requiresAuth := Some (item_requiresAuth item) |}.

(** The [forEach] of [registerRoutesFromConfig]: the active items are
    registered in turn; the exception of [registerRoute] ends the loop. *)
Fixpoint registerItems (r : Router) (items : list MenuItem) : Result Router :=
  match items with
  | [] => Returned r
  | item :: items =>
      if item_active item then
        match registerRoute r (item_module item) (routeConfigOf item) with
        | Returned r => registerItems r items
        | Thrown message => Thrown message
        end
      else registerItems r items
  end.

Definition registerRoutesFromConfig (r : Router) (menu : option MenuConfig)
  : Result Router :=
  match menu with
  | Some menu => registerItems r (menuItems menu)
  | None => Returned r
  end.

(** [{ ...route, params: { ...params }, query: { ...query } }]. *)
Definition prepare (route : Route) (params query : gmap string Value) : Route :=
  mkRoute (route_id route) (route_path route) (route_module route)
    (route_title route) (route_description route) (route_icon route)
    (route_requiresAuth route) params query.

Definition getCurrentRoute (r : Router) : option Route := currentRoute r.

(** [this.app.menuConfig?.settings?.defaultModule || 'accueil']. *)
Definition defaultModule (a : App) : string :=
  orElse (menuConfig a ≫= settings_defaultModule) "accueil".

(** [saveToHistory(route)]: [route] is [None] for [null]; the test
    [route.id !== this.currentRoute?.id] compares with [undefined] when there
    is no current route. *)
Definition saveToHistory (now : N) (r : Router) (route : option Route)
  : Router :=
  match route with
  | Some route =>
      if decide (Some (route_id route) ≠ route_id <$> currentRoute r) then
        let pushed :=
          history r ++ [mkHistoryEntry (route_id route) (route_params route)
                          (route_query route) now] in
        if decide (maxHistorySize r < length pushed)%nat
        then setHistory (tail pushed) r
        else setHistory pushed r
      else r
  | None => r
  end.

(** [window.location], the three parts [parseCurrentURL] reads. *)
Record Location := mkLocation {
  location_hash : string;
  location_pathname : string;
  location_search : string
}.

(** [parseCurrentURL()]: the path and the query of the address, [None] when
    [parseQueryString] throws. *)
Definition parseCurrentURL (r : Router) (location : Location)
  : option (string * gmap string Value) :=
  if hashMode (config r) then
    match Str.split "?" (Str.substring1 (location_hash location)) with
    | hashPath :: rest =>
        query ← match rest with
                | queryString :: _ =>
                    if Str.truthy queryString
                    then Query.parseQueryString queryString
                    else Some ∅
                | [] => Some ∅
                end;
        Some (hashPath, query)
    | [] => Some ("", ∅)
    end
  else
    query ← Query.parseQueryString (Str.substring1 (location_search location));
    Some (Str.substring1 (location_pathname location), query).

Definition updateURL (w : World) (route : Route) : World :=
  let queryString := Query.buildQueryString (route_query route) in
  let w :=
    if hashMode (config (router w))
    then log (Address ("#" +:+ route_path route +:+ queryString)) w
    else log (Address ("/" +:+ route_path route +:+ queryString)) w in
  log (Title (route_title route +:+ " - " +:+
              orElse (menuConfig (app w) ≫= application_title) "Application"))
    w.

Definition emitNavigationEvent (now : N) (w : World) (eventName : string)
    (current : Route) (previous : option Route) : World :=
  log (Dispatch ("router:" +:+ eventName) current previous now) w.

(** ** App *)

(** The two resources of a module. *)
Definition templateOf (moduleId : string) : string :=
  "templates/modules/" +:+ moduleId +:+ ".html".

Definition scriptOf (moduleId : string) : string :=
  "js/modules/" +:+ moduleId +:+ ".js".

Definition renderModule (w : World) (html : string)
    (moduleInstance : option Instance) : World :=
  log (Render html moduleInstance) w.

Definition showError (w : World) (message : string) : World :=
  log (ShowError message) w.

Section WithEnv.
Context (E : Env).

Definition loadModule (w : World) (moduleId : string) : Result unit * World :=
  match loadedModules (app w) !! moduleId with
  | Some cachedModule =>
      (Returned (),
       renderModule w (entry_html cachedModule) (entry_instance cachedModule))
  | None =>
      let template := templateOf moduleId in
      let script := scriptOf moduleId in
      let w := log (FetchFile template) w in
      let w := log (LoadScript script) w in
      let moduleInstance :=
        if loadVersionedScript E script then instantiate E moduleId
        else None in
      match loadVersionedFile E template with
      | Returned html =>
          let w :=
            withApp
              (setLoadedModules
                 (<[moduleId := mkModuleEntry html moduleInstance]>
                    (loadedModules (app w))) (app w)) w in
          (Returned (), renderModule w html moduleInstance)
      | Thrown message =>
          (Thrown ("Erreur lors du chargement du module " +:+ moduleId +:+
                   ": " +:+ message), w)
      end
  end.

Definition clearCache (w : World) : World :=
  withApp (setLoadedModules ∅ (app w)) w.

(** [navigateToModule] catches whatever its body throws and shows the error
    panel; it never throws itself.  The loading overlay, the menu highlight
    and the welcome screen are left out, as the rest of the DOM work: what
    is followed is a module id that the selector of [setActiveMenu] accepts
    (see [selectorChar]) and an item [url] that [history.pushState]
    accepts. *)
Definition navigateToModule (w : World) (moduleId : string)
    (updateHistory : bool) : World :=
  let failed w := showError w ("Impossible de charger le module: " +:+ moduleId) in
  match menuConfig (app w) with
  | None => failed w
  | Some menu =>
      match
        find (λ item, bool_decide (item_module item = moduleId)) (menuItems menu)
      with
      | None => failed w
      | Some moduleConfig =>
          match loadModule w moduleId with
          | (Returned _, w) =>
              let w :=
                if updateHistory
                then log (PushState (orElse (Some (item_url moduleConfig))
                                       ("#" +:+ moduleId))) w
                else w in
              match application_title menu with
              | Some title =>
                  let w :=
                    log (Title (item_label moduleConfig +:+ " - " +:+ title)) w in
                  withApp (setCurrentModule (Some moduleId) (app w)) w
              | None => failed w
              end
          | (Thrown _, w) => failed w
          end
      end
  end.

Context {H : Hooks}.

(** [handleNavigationError], with the router's [navigate] passed in. *)
Definition handleNavigationErrorWith
    (navigate : World → string → gmap string Value → gmap string Value →
                option (bool * World))
    (w : World) (routeId : string) : option World :=
  let fallbackRoute := defaultModule (app w) in
  if decide (routeId ≠ fallbackRoute)
  then snd <$> navigate w fallbackRoute ∅ ∅
  else Some w.

(** [navigate(routeId, params, query)].  The one [throw] of the body is the
    unknown route; its [catch] is the first branch.
    [executeAfterNavigationHooks] writes to the console only and is left
    out.  [fuel] bounds the depth of the calls of [navigate] from within
    [navigate]; [None] is a call stack that outgrows it.  The listeners
    that the step of [updateURL] wakes are not part of the call: see
    [onHashChange]. *)
Fixpoint navigate (fuel : nat) (w : World) (routeId : string)
    (params query : gmap string Value) : option (bool * World) :=
  match fuel with
  | O => None
  | S fuel =>
      match routes (router w) !! routeId with
      | None =>
          w ← handleNavigationErrorWith (navigate fuel) w routeId;
          Some (false, w)
      | Some route =>
          if route_requiresAuth route && negb (checkAuthentication (router w))
          then
            w ← snd <$> navigate fuel w "login" ∅ ∅;
            Some (false, w)
          else
            let preparedRoute := prepare route params query in
            let w :=
              withRouter
                (saveToHistory (dateNow E) (router w) (currentRoute (router w)))
                w in
            if executeBeforeNavigationHooks (router w) preparedRoute then
              let previousRoute := currentRoute (router w) in
              let w :=
                withRouter (setCurrentRoute (Some preparedRoute) (router w)) w in
              let w := updateURL w preparedRoute in
              let w := navigateToModule w (route_module route) false in
              let w :=
                if config_scrollToTop (config (router w))
                then log ScrollToTop w else w in
              let w :=
                emitNavigationEvent (dateNow E) w "navigate" preparedRoute
                  previousRoute in
              Some (true, w)
            else Some (false, w)
      end
  end.

Definition handleNavigationError (fuel : nat) (w : World) (routeId : string)
  : option World :=
  handleNavigationErrorWith (navigate fuel) w routeId.

(** [goBack()]: [history.pop()] yields the last entry. *)
Definition goBack (fuel : nat) (w : World) : option (bool * World) :=
  match last (history (router w)) with
  | Some previousRoute =>
      let w :=
        withRouter (setHistory (removelast (history (router w))) (router w)) w in
      w ← snd <$> navigate fuel w (entry_id previousRoute)
                    (entry_params previousRoute) (entry_query previousRoute);
      Some (true, w)
  | None =>
      w ← snd <$> navigate fuel w (defaultModule (app w)) ∅ ∅;
      Some (false, w)
  end.

End WithEnv.

(** The requests of [loadModule] to the asset loader, among the events. *)
Definition isFetch (e : Event) : bool :=
  match e with
  | FetchFile _ | LoadScript _ => true
  | _ => false
  end.

Definition fetches (events : list Event) : list Event :=
  filter (λ e, isFetch e = true) events.

(** ** Sequences of calls *)

(** [registerRoute] called for each pair in turn, by a caller that catches
    the exception of a rejected configuration and goes on. *)
Definition registerAll (r : Router) (calls : list (string * RouteConfig))
  : Router :=
  foldl (λ r call,
           match registerRoute r call.1 call.2 with
           | Returned r' => r'
           | Thrown _ => r
           end) r calls.

Inductive Command :=
  | Navigate (routeId : string) (params query : gmap string Value)
  | GoBack.

Section Sequences.
Context (E : Env) {H : Hooks}.

Definition step (fuel : nat) (w : World) (c : Command) : option World :=
  match c with
  | Navigate routeId params query =>
      snd <$> navigate E fuel w routeId params query
  | GoBack => snd <$> goBack E fuel w
  end.

(** The calls made one after the other, each awaited. *)
Definition run (fuel : nat) (w : World) (commands : list Command)
  : option World :=
  forEach (step fuel) w commands.

End Sequences.

(** ** Predicates of the statements *)

(** Every route of the table is stored under its own id, as [registerRoute]
    stores it. *)
Definition keyed (table : gmap string Route) : Prop :=
  map_Forall (λ k route, route_id route = k) table.

(** The path starts with the route marker. *)
Definition marked (path : string) : bool := Str.startsWith "#" path.

(** The path starts with two route markers. *)
Definition doublyMarked (path : string) : bool :=
  marked path && marked (Str.substring1 path).

(** The path [registerRoute] normalizes for a call. *)
Definition requestedPath (call : string * RouteConfig) : string :=
  orElse (config_path call.2) call.1.

Definition bounded (r : Router) : Prop :=
  (length (history r) ≤ maxHistorySize r)%nat.

(** ** A sample application *)

Definition sampleMenu : MenuConfig :=
  {| menuItems :=
       [ mkMenuItem "accueil" "#accueil" "Accueil" None None true false;
         mkMenuItem "statistiques" "#statistiques" "Statistiques" None None
           true false;
         mkMenuItem "archives" "#archives" "Archives" None None false false ];
     settings_defaultModule := Some "accueil";
     application_title := Some "Gestion Sportive" |}.

Definition sampleConfig (path module title : string) : RouteConfig :=
  {| config_path := Some path; config_module := Some module;
     config_title := Some title; config_description := None;
     config_icon := None; config_requiresAuth := None |}.

(** The router of the sample application, its table registered from the
    menu as [init] does. *)
Definition sampleRouter : Router :=
  match registerRoutesFromConfig newRouter (Some sampleMenu) with
  | Returned r => r
  | Thrown _ => newRouter
  end.

Definition sampleEnv : Env :=
  {| loadVersionedFile := λ url, Returned ("<section>" +:+ url +:+ "</section>");
     loadVersionedScript := λ _, true;
     instantiate := λ moduleId,
       if decide (moduleId = "accueil") then Some "AccueilModule" else None;
     dateNow := 1725667200000 |}.

Definition sampleWorld : World :=
  {| router := sampleRouter;
     app := {| menuConfig := Some sampleMenu; loadedModules := ∅;
               currentModule := None |};
     trace := [] |}.

(** The route [registerRoute] stores for the first sample call. *)
Definition accueilRoute : Route :=
  mkRoute "accueil" "accueil" "accueil" "Accueil" "" "fas fa-page" false ∅ ∅.

Definition statistiquesRoute : Route :=
  mkRoute "statistiques" "statistiques" "statistiques" "Statistiques" ""
    "fas fa-page" false ∅ ∅.


(** A hook chain that vetoes every navigation. *)
Definition vetoHooks : Hooks :=
  {| checkAuthentication := λ _, true;
     executeBeforeNavigationHooks := λ _ _, false |}.

(** ** The rest of the router *)

Definition hasRoute (r : Router) (routeId : string) : bool :=
  bool_decide (is_Some (routes r !! routeId)).

Definition getRoute (r : Router) (routeId : string) : option Route :=
  routes r !! routeId.


(** A configuration with its empty strings taken for absent properties. *)
Definition blankIsAbsent (o : option string) : option string :=
  match o with
  | Some s => if Str.truthy s then Some s else None
  | None => None
  end.

Definition withoutBlanks (routeConfig : RouteConfig) : RouteConfig :=
  {| config_path := blankIsAbsent (config_path routeConfig);
     config_module := blankIsAbsent (config_module routeConfig);
     config_title := blankIsAbsent (config_title routeConfig);
     config_description := blankIsAbsent (config_description routeConfig);
     config_icon := blankIsAbsent (config_icon routeConfig);
     config_requiresAuth := config_requiresAuth routeConfig |}.

(** The value is neither [null] nor [undefined]. *)
Definition present (v : Value) : bool :=
  match v with
  | VNullish => false
  | _ => true
  end.

(** Every character of [s] satisfies [p]. *)
Fixpoint allChars (p : ascii → bool) (s : string) : bool :=
  match s with
  | "" => true
  | String c s' => p c && allChars p s'
  end.

(** The characters of a built query string: those [encodeURIComponent]
    writes, and the three separators. *)
Definition queryChar (c : ascii) : bool :=
  Uri.unreserved c || bool_decide (c ∈ ["%"; "&"; "="; "?"]%char).


(** ** The rest of the App *)

(** [c.toUpperCase()] for a character of one byte. *)
Definition upperAscii (c : ascii) : ascii :=
  let n := N_of_ascii c in
  if Uri.between 97 122 n then ascii_of_N (n - 32) else c.

(** [word.charAt(0).toUpperCase() + word.slice(1)]; [None] for a word that
    starts with a character of more than one byte, whose upper case is not
    modelled. *)
Definition capitalize (word : string) : option string :=
  match word with
  | "" => Some ""
  | String c rest =>
      if N_of_ascii c <? 128 then Some (String (upperAscii c) rest) else None
  end.

(** [getModuleClassName(moduleId)]. *)
Definition getModuleClassName (moduleId : string) : option string :=
  words ← mapM capitalize (Str.split "-" moduleId);
  Some (Str.join "" words +:+ "Module").

(** ** The versioned URLs of [version.js] *)

Module Version.

Definition APP_BUILD : string := "2024.09.07.001".

(** [window.CACHE_CONFIG.versionedFiles]. *)
Definition versionedFiles : list string := ["css"; "js"; "json"; "html"].

Definition lowerAscii (c : ascii) : ascii :=
  let n := N_of_ascii c in
  if Uri.between 65 90 n then ascii_of_N (n + 32) else c.

(** [s.toLowerCase()] on the bytes of one-byte characters.  The result is
    only compared with the four ASCII words of [versionedFiles], none of
    which has a letter that a character of several bytes lowers to, so the
    comparison comes out as in the source. *)
Fixpoint toLowerCase (s : string) : string :=
  match s with
  | "" => ""
  | String c s' => String (lowerAscii c) (toLowerCase s')
  end.

(** [s.includes(c)] for a one-character pattern. *)
Definition includes (c : ascii) (s : string) : bool := negb (Str.lacks c s).

(** [url.split('.').pop().toLowerCase()]. *)
Definition extensionOf (url : string) : string :=
  toLowerCase (default "" (last (Str.split "." url))).

Definition getVersionedUrl (url : string) (forceVersion : bool) : string :=
  let extension := extensionOf url in
  let shouldVersion :=
    bool_decide (extension ∈ versionedFiles) || forceVersion in
  if shouldVersion then
    let separator := if includes "?" url then "&" else "?" in
    url +:+ separator +:+ "v=" +:+ APP_BUILD
  else url.

End Version.

(** ** A sample application with a protected route *)

Definition guardedRouter : Router :=
  registerAll newRouter
    [ ("login", sampleConfig "login" "login" "Connexion");
      ("admin",
       mkRouteConfig (Some "#admin") (Some "admin") None None None (Some true)) ].

Definition guardedWorld : World :=
  {| router := guardedRouter;
     app := {| menuConfig := Some sampleMenu; loadedModules := ∅;
               currentModule := None |};
     trace := [] |}.

Definition loginRoute : Route :=
  mkRoute "login" "login" "login" "Connexion" "" "fas fa-page" false ∅ ∅.

Definition adminRoute : Route :=
  mkRoute "admin" "admin" "admin" "admin" "" "fas fa-page" true ∅ ∅.

(** An asset loader whose templates are missing and whose scripts fail. *)
Definition offlineEnv : Env :=
  {| loadVersionedFile := λ url, Thrown "Erreur HTTP: 404 - Not Found";
     loadVersionedScript := λ _, false;
     instantiate := λ _, None;
     dateNow := 1725667200000 |}.

(** An asset loader that serves the templates but no script. *)
Definition templatesOnlyEnv : Env :=
  {| loadVersionedFile := λ url, Returned ("<section>" +:+ url +:+ "</section>");
     loadVersionedScript := λ _, false;
     instantiate := λ moduleId, Some "Unreachable";
     dateNow := 1725667200000 |}.

(** ** A long visit of the sample application *)



(** ** The page around the router *)

(** The fragment of the address, as [window.location.hash] sets and gets
    it. *)
Module Fragment.

(** Tabs and line breaks are removed from an assigned value. *)
Definition dropped (c : ascii) : bool :=
  bool_decide (c ∈ ["009"; "010"; "013"]%char).

(** The characters a fragment holds percent-encoded: the controls, the
    space, the double quote, [<], [>], the backquote, and every byte from
    [DEL] up (a character outside ASCII is encoded byte by byte). *)
Definition escaped (c : ascii) : bool :=
  let n := N_of_ascii c in
  (n <? 32) || (126 <? n) || bool_decide (c ∈ [" "; "034"; "<"; ">"; "`"]%char).

(** The characters a fragment holds as they are written. *)
Definition kept (c : ascii) : bool := negb (dropped c) && negb (escaped c).

Fixpoint encode (s : string) : string :=
  match s with
  | "" => ""
  | String c s' =>
      if dropped c then encode s'
      else if escaped c then Uri.escape c +:+ encode s'
      else String c (encode s')
  end.

(** What [window.location.hash] returns once [value] is assigned to it: one
    leading [#] of [value] is not part of the fragment, and an empty
    fragment reads as the empty string. *)
Definition shown (value : string) : string :=
  let fragment :=
    encode (if Str.startsWith "#" value then Str.substring1 value else value) in
  if Str.truthy fragment then String "#" fragment else "".

End Fragment.

(** The two classes on their page: [window.location], and the order in
    which the keys of [routes] were first registered, which is the order in
    which the [Map] enumerates them. *)
Record Page := mkPage {
  page_world : World;
  page_location : Location;
  page_order : list string
}.



(** The step [Address newHash] of [updateURL] in hash mode:
    [if (window.location.hash !== newHash) window.location.hash = newHash]. *)
Definition assignHash (location : Location) (e : Event) : Location :=
  match e with
  | Address newHash =>
      if decide (location_hash location = newHash) then location
      else mkLocation (Fragment.shown newHash) (location_pathname location)
             (location_search location)
  | _ => location
  end.

(** The loop of [handleInitialRoute] over the entries of [routes]: the key
    of the first route that has the path. *)
Definition routeOfPath (order : list string) (table : gmap string Route)
    (path : string) : option string :=
  find (λ routeId, bool_decide (route_path <$> table !! routeId = Some path))
    order.

Section OnPage.
Context (E : Env) {H : Hooks}.

(** [navigate] with the address of the page following the steps of
    [updateURL].  The address is followed in hash mode, the mode the
    constructor sets; in path mode [updateURL] pushes on the browser history
    instead, which wakes no listener. *)
Definition navigateOnPage (fuel : nat) (page : Page) (routeId : string)
    (params query : gmap string Value) : option (bool * Page) :=
  '(result, w) ← navigate E fuel (page_world page) routeId params query;
  let events := drop (length (trace (page_world page))) (trace w) in
  let location :=
    if hashMode (config (router w))
    then foldl assignHash (page_location page) events
    else page_location page in
  Some (result, mkPage w location (page_order page)).

(** [handleInitialRoute()], followed to the completion of the [navigate] it
    starts.  A [URIError] of [parseCurrentURL] leaves the method before it
    has done anything. *)
Definition handleInitialRoute (fuel : nat) (page : Page) : option Page :=
  let w := page_world page in
  match parseCurrentURL (router w) (page_location page) with
  | Some (path, query) =>
      let targetRoute :=
        match routeOfPath (page_order page) (routes (router w)) path with
        | Some routeId =>
            if Str.truthy routeId then routeId else defaultModule (app w)
        | None => defaultModule (app w)
        end in
      snd <$> navigateOnPage fuel page targetRoute ∅ query
  | None => Some page
  end.

(** The [hashchange] listener of [bindEvents], registered in hash mode.  The
    [popstate] listener does the same for an event that carries no state,
    as the one of an assigned hash.

    An assignment that changes the hash wakes these listeners; they run
    while the [navigate] that made the assignment awaits a module that has
    to be fetched, and after its return otherwise.  [navigate] does not
    write the router after its assignment, and the [navigate] of a listener
    writes the current route after it: followed here after the call, a
    listener meets and leaves the router fields as it does in between.  (The
    cache and the order of the events on the page are those of the calls
    made one after the other.) *)
Definition onHashChange (fuel : nat) (page : Page) : option Page :=
  if hashMode (config (router (page_world page)))
  then handleInitialRoute fuel page
  else Some page.

(** The listener woken [times] times. *)
Fixpoint listen (fuel : nat) (times : nat) (page : Page) : option Page :=
  match times with
  | O => Some page
  | S times => page ← onHashChange fuel page; listen fuel times page
  end.

End OnPage.




(** The sample application settled on its home page. *)
Definition samplePage : Page :=
  {| page_world :=
       withRouter (setCurrentRoute (Some accueilRoute) sampleRouter) sampleWorld;
     page_location := mkLocation "#accueil" "/" "";
     page_order := ["accueil"; "statistiques"] |}.

(** ** The menu highlight *)

(** The characters that can stand in the selector
    [[data-module="moduleId"]] of [setActiveMenu] without ending its quoted
    string or starting an escape in it. *)
Definition selectorChar (c : ascii) : bool :=
  negb (bool_decide (c ∈ ["034"; "092"; "010"; "012"; "013"]%char)).

(** * Properties *)

(** ** Strings *)

Lemma app_cons c a b : String c a +:+ b = String c (a +:+ b).
Proof. reflexivity. Qed.

Lemma lacks_app c a b : Str.lacks c (a +:+ b) = Str.lacks c a && Str.lacks c b.
Proof.
  induction a as [|c' a IH]; [reflexivity|].
  rewrite app_cons. simpl. rewrite IH. by rewrite andb_assoc.
Qed.

Lemma split_lacks sep s : Str.lacks sep s = true → Str.split sep s = [s].
Proof.
  induction s as [|c s IH]; [reflexivity|]. simpl.
  intros [Hc Hs]%andb_true_iff. apply bool_decide_eq_true in Hc.
  rewrite decide_False by done. by rewrite IH.
Qed.

Lemma split_app sep a b :
  Str.lacks sep a = true →
  Str.split sep (a +:+ String sep b) = a :: Str.split sep b.
Proof.
  induction a as [|c a IH].
  - intros _. change ("" +:+ String sep b) with (String sep b). simpl.
    by rewrite decide_True.
  - intros Hlacks. simpl in Hlacks.
    apply andb_true_iff in Hlacks as [Hc Ha]. apply bool_decide_eq_true in Hc.
    rewrite app_cons. simpl. rewrite decide_False by done. by rewrite IH.
Qed.

Lemma split_join sep parts :
  parts ≠ [] → Forall (λ p, Str.lacks sep p = true) parts →
  Str.split sep (Str.join (String sep "") parts) = parts.
Proof.
  induction parts as [|p parts IH]; [done|]. intros _ Hall.
  apply Forall_cons in Hall as [Hp Hall].
  destruct parts as [|p' parts]; [by apply split_lacks|].
  change (Str.join (String sep "") (p :: p' :: parts))
    with (p +:+ String sep (Str.join (String sep "") (p' :: parts))).
  rewrite split_app by done. f_equal. by apply IH.
Qed.

Lemma truthy_app a b : Str.truthy a = true → Str.truthy (a +:+ b) = true.
Proof. by destruct a. Qed.

Lemma truthy_join sep p parts :
  Str.truthy p = true → Str.truthy (Str.join sep (p :: parts)) = true.
Proof. destruct parts; [done|]. apply truthy_app. Qed.

Lemma truthy_nonempty s : s ≠ "" → Str.truthy s = true.
Proof. by destruct s. Qed.

(** ** Percent-encoding *)

Lemma unescape_escape c rest :
  Uri.unescape (Uri.escape c +:+ rest) = String c <$> Uri.unescape rest.
Proof. by destruct c as [[] [] [] [] [] [] [] []]. Qed.

Lemma unescape_unreserved c rest :
  Uri.unreserved c = true →
  Uri.unescape (String c rest) = String c <$> Uri.unescape rest.
Proof. by destruct c as [[] [] [] [] [] [] [] []]. Qed.

Lemma unescape_encode s : Uri.unescape (Uri.encodeURIComponent s) = Some s.
Proof.
  induction s as [|c s IH]; [reflexivity|]. simpl.
  destruct (Uri.unreserved c) eqn:Hc.
  - by rewrite unescape_unreserved, IH.
  - by rewrite unescape_escape, IH.
Qed.

Lemma decode_encode s :
  Uri.utf8 s = true →
  Uri.decodeURIComponent (Uri.encodeURIComponent s) = Some s.
Proof.
  intros Hs. unfold Uri.decodeURIComponent.
  rewrite unescape_encode. simpl. by rewrite Hs.
Qed.

Lemma encode_char_lacks sep c :
  sep ∈ ["&"; "="; "?"]%char →
  Str.lacks sep (if Uri.unreserved c then String c "" else Uri.escape c) = true.
Proof.
  rewrite !elem_of_cons, elem_of_nil.
  intros [->|[->|[->|[]]]]; by destruct c as [[] [] [] [] [] [] [] []].
Qed.

Lemma encode_lacks sep s :
  sep ∈ ["&"; "="; "?"]%char →
  Str.lacks sep (Uri.encodeURIComponent s) = true.
Proof.
  intros Hsep. induction s as [|c s IH]; [reflexivity|]. simpl.
  pose proof (encode_char_lacks sep c Hsep) as Hc.
  destruct (Uri.unreserved c).
  - change (String c (Uri.encodeURIComponent s))
      with (String c "" +:+ Uri.encodeURIComponent s).
    by rewrite lacks_app, Hc, IH.
  - by rewrite lacks_app, Hc, IH.
Qed.

Lemma encode_truthy s :
  s ≠ "" → Str.truthy (Uri.encodeURIComponent s) = true.
Proof.
  destruct s as [|c s]; [done|]. intros _. simpl.
  by destruct (Uri.unreserved c).
Qed.

(** ** Query strings *)

Lemma outer_separator sep :
  sep ∈ ["&"; "?"]%char → sep ∈ ["&"; "="; "?"]%char ∧ sep ≠ "="%char.
Proof.
  rewrite !elem_of_cons, !elem_of_nil. intros [->|[->|[]]]; auto.
Qed.

Lemma queryPart_portable k v :
  Query.portable k v →
  ∃ part, Query.queryPart (k, v) = Some part ∧
          Str.truthy part = true ∧
          ∀ sep, sep ∈ ["&"; "?"]%char → Str.lacks sep part = true.
Proof.
  intros (Hk & _ & _ & Hv).
  destruct v as [s| |]; [|simpl|done].
  - eexists. split; [reflexivity|]. simpl. split.
    + by apply truthy_app, encode_truthy.
    + intros sep [Hsep Hne]%outer_separator.
      rewrite !lacks_app, !encode_lacks by done.
      simpl. by rewrite bool_decide_eq_true_2.
  - eexists. split; [reflexivity|]. simpl. split.
    + by apply encode_truthy.
    + intros sep [Hsep _]%outer_separator. by apply encode_lacks.
Qed.

Lemma parseParam_queryPart params k v part :
  Query.portable k v → Query.queryPart (k, v) = Some part →
  Query.parseParam params part = Some (<[k := v]> params).
Proof.
  intros (Hk & Hproto & Hutf & Hv) Hpart.
  assert (Uri.decodeURIComponent (Uri.encodeURIComponent k) = Some k) as Hdec
    by by apply decode_encode.
  assert (Str.truthy (Uri.encodeURIComponent k) = true) as Htruthy
    by by apply encode_truthy.
  unfold Query.queryPart in Hpart. simpl in Hpart.
  destruct v as [s| |]; [destruct Hv as [Hs Hsutf]| |done];
    injection Hpart as <-; unfold Query.parseParam.
  - change ("=" +:+ Uri.encodeURIComponent s)
      with (String "=" (Uri.encodeURIComponent s)).
    rewrite split_app by (apply encode_lacks; (rewrite !elem_of_cons; auto)).
    rewrite split_lacks by (apply encode_lacks; (rewrite !elem_of_cons; auto)).
    rewrite Htruthy, Hdec. simpl.
    rewrite encode_truthy by done. rewrite decode_encode by done. simpl.
    unfold Query.assign. by rewrite decide_False.
  - rewrite split_lacks by (apply encode_lacks; (rewrite !elem_of_cons; auto)).
    rewrite Htruthy, Hdec. simpl.
    unfold Query.assign. by rewrite decide_False.
Qed.

Lemma omap_cons_Some {A B} (f : A → option B) x y l :
  f x = Some y → omap f (x :: l) = y :: omap f l.
Proof. intros Hfx. simpl. by rewrite Hfx. Qed.

Lemma parse_parts entries : ∀ params,
  Forall (λ e, Query.portable e.1 e.2) entries →
  Forall (λ part, Str.truthy part = true ∧
                  ∀ sep, sep ∈ ["&"; "?"]%char → Str.lacks sep part = true)
    (omap Query.queryPart entries) ∧
  forEach Query.parseParam params (omap Query.queryPart entries)
  = Some (foldl (λ m e, <[e.1 := e.2]> m) params entries).
Proof.
  induction entries as [|[k v] entries IH]; intros params Hall.
  - by split.
  - apply Forall_cons in Hall as [Hkv Hall].
    destruct (queryPart_portable k v Hkv) as (part & Hpart & Htruthy & Hlacks).
    pose proof (parseParam_queryPart params k v part Hkv Hpart) as Hparse.
    destruct (IH (<[k := v]> params) Hall) as [Hgood Hrun].
    rewrite (omap_cons_Some _ _ _ _ Hpart). split.
    + by constructor.
    + simpl. rewrite Hparse. simpl. by rewrite Hrun.
Qed.

Lemma foldl_insert_entries (entries : list (string * Value)) :
  ∀ params : gmap string Value,
  NoDup entries.*1 →
  foldl (λ m e, <[e.1 := e.2]> m) params entries
  = list_to_map entries ∪ params.
Proof.
  induction entries as [|[k v] entries IH]; intros params Hnodup.
  - simpl. by rewrite (left_id_L ∅ (∪)).
  - simpl in *. apply NoDup_cons in Hnodup as [Hk Hnodup].
    rewrite IH by done.
    rewrite <- insert_union_l. symmetry.
    apply insert_union_r. by apply not_elem_of_list_to_map_1.
Qed.

Lemma lacks_join sep parts :
  sep ≠ "&"%char → Forall (λ part, Str.lacks sep part = true) parts →
  Str.lacks sep (Str.join "&" parts) = true.
Proof.
  intros Hsep. induction 1 as [|part parts Hpart _ IH]; [done|].
  destruct parts as [|part' parts]; [done|].
  change (Str.join "&" (part :: part' :: parts))
    with (part +:+ "&" +:+ Str.join "&" (part' :: parts)).
  rewrite !lacks_app, Hpart, IH. simpl.
  by rewrite bool_decide_eq_true_2.
Qed.

(** What [buildQueryString] builds for portable entries: nothing for the
    empty mapping, else [?] and a string without [?] that
    [parseQueryString] takes back to the mapping. *)
Lemma build_portable (q : gmap string Value) :
  map_Forall Query.portable q →
  (q = ∅ ∧ Query.buildQueryString q = "") ∨
  ∃ queryString,
    Query.buildQueryString q = String "?" queryString ∧
    Str.truthy queryString = true ∧
    Str.lacks "?" queryString = true ∧
    Query.parseQueryString queryString = Some q.
Proof.
  intros Hq.
  assert (Forall (λ e, Query.portable e.1 e.2) (map_to_list q)) as Hall.
  { apply Forall_forall. intros [k v] Hin. apply Hq.
    by apply elem_of_map_to_list. }
  destruct (parse_parts (map_to_list q) ∅ Hall) as [Hgood Hrun].
  rewrite foldl_insert_entries in Hrun by apply NoDup_fst_map_to_list.
  rewrite list_to_map_to_list, (right_id_L ∅ (∪)) in Hrun.
  unfold Query.buildQueryString.
  destruct (omap Query.queryPart (map_to_list q)) as [|part parts].
  - left. simpl in Hrun. by injection Hrun as <-.
  - right. exists (Str.join "&" (part :: parts)).
    apply Forall_cons in Hgood as Hgood'. destruct Hgood' as [[Htruthy _] _].
    split_and!; [done|by apply truthy_join| |].
    + apply lacks_join; [done|].
      eapply Forall_impl; [exact Hgood|]. intros p [_ Hp]. apply Hp. rewrite !elem_of_cons. auto.
    + unfold Query.parseQueryString. rewrite truthy_join by done.
      rewrite split_join; [done|done|].
      eapply Forall_impl; [exact Hgood|]. intros p [_ Hp]. apply Hp. rewrite !elem_of_cons. auto.
Qed.

Lemma parse_build_portable (q : gmap string Value) :
  map_Forall Query.portable q →
  Query.parseQueryString (Str.substring1 (Query.buildQueryString q)) = Some q.
Proof.
  intros [[-> ->]|(queryString & -> & _ & _ & Hparse)]%build_portable; done.
Qed.

Lemma append_empty s : s +:+ "" = s.
Proof. induction s as [|c s IH]; [done|]. by rewrite app_cons, IH. Qed.

(** In hash mode [parseCurrentURL] reads back the path and the query of an
    address written by [updateURL]. *)
Lemma parseCurrentURL_address r path (q : gmap string Value) pathname search :
  hashMode (config r) = true → Str.lacks "?" path = true →
  map_Forall Query.portable q →
  parseCurrentURL r
    (mkLocation ("#" +:+ path +:+ Query.buildQueryString q) pathname search)
  = Some (path, q).
Proof.
  intros Hmode Hpath Hq. unfold parseCurrentURL. rewrite Hmode.
  change (Str.substring1 (location_hash _))
    with (path +:+ Query.buildQueryString q).
  destruct (build_portable q Hq)
    as [[-> ->]|(queryString & -> & Htruthy & Hlacks & Hparse)].
  - rewrite append_empty, split_lacks by done. done.
  - rewrite split_app, split_lacks by done. simpl.
    by rewrite Htruthy, Hparse.
Qed.

(** ** Router state across the steps of [navigate] *)

Lemma length_removelast_le {A} (l : list A) :
  (length (removelast l) ≤ length l)%nat.
Proof.
  induction l as [|x [|y l] IH]; simpl in *; lia.
Qed.

Lemma withRouter_router w : withRouter (router w) w = w.
Proof. by destruct w. Qed.

Lemma saveToHistory_current now r : saveToHistory now r (currentRoute r) = r.
Proof.
  unfold saveToHistory. destruct (currentRoute r) as [route|]; [|done].
  simpl. by rewrite decide_False by (by intros []).
Qed.

Section RouterFacts.
Context (E : Env) {H : Hooks}.

Lemma loadModule_frame w moduleId :
  router (loadModule E w moduleId).2 = router w ∧
  menuConfig (app (loadModule E w moduleId).2) = menuConfig (app w).
Proof.
  unfold loadModule. destruct (loadedModules (app w) !! moduleId); [done|].
  by destruct (loadVersionedFile E _).
Qed.

Lemma navigateToModule_frame w moduleId updateHistory :
  router (navigateToModule E w moduleId updateHistory) = router w ∧
  menuConfig (app (navigateToModule E w moduleId updateHistory))
  = menuConfig (app w).
Proof.
  unfold navigateToModule.
  destruct (menuConfig (app w)) as [menu|] eqn:Hmenu; [|done].
  destruct (find _ _) as [moduleConfig|]; [|done].
  pose proof (loadModule_frame w moduleId) as [Hr Hm].
  destruct (loadModule E w moduleId) as [[[]|msg] w1]; simpl in *;
    [|by rewrite Hr, Hm].
  destruct (application_title menu), updateHistory; simpl;
    by rewrite ?Hr, ?Hm.
Qed.

(** A known route whose authorization passes: the hook chain decides. *)
Lemma navigate_known fuel w routeId params query route :
  routes (router w) !! routeId = Some route →
  route_requiresAuth route && negb (checkAuthentication (router w)) = false →
  ∃ w',
    navigate E (S fuel) w routeId params query
    = Some (executeBeforeNavigationHooks (router w)
              (prepare route params query), w') ∧
    menuConfig (app w') = menuConfig (app w) ∧
    if executeBeforeNavigationHooks (router w) (prepare route params query)
    then router w' = setCurrentRoute (Some (prepare route params query)) (router w)
    else w' = w.
Proof.
  intros Hroute Hauth. simpl. rewrite Hroute, Hauth.
  rewrite saveToHistory_current, withRouter_router.
  destruct (executeBeforeNavigationHooks _ _); [|by eexists].
  eexists. split; [reflexivity|].
  unfold emitNavigationEvent, updateURL.
  set (w1 := log _ (if hashMode _ then _ else _)).
  assert (router w1 = setCurrentRoute (Some (prepare route params query)) (router w)
          ∧ menuConfig (app w1) = menuConfig (app w)) as [Hr1 Hm1].
  { subst w1. simpl. by destruct (hashMode _). }
  pose proof (navigateToModule_frame w1 (route_module route) false) as [Hr Hm].
  destruct (config_scrollToTop _); simpl; by rewrite Hr, Hm.
Qed.

(** An unknown route: the error handler decides. *)
Lemma navigate_unknown_step fuel w routeId params query :
  routes (router w) !! routeId = None →
  navigate E (S fuel) w routeId params query
  = if decide (routeId ≠ defaultModule (app w))
    then '(_, w') ← navigate E fuel w (defaultModule (app w)) ∅ ∅;
         Some (false, w')
    else Some (false, w).
Proof.
  intros Hroute. simpl. rewrite Hroute. unfold handleNavigationErrorWith.
  destruct (decide _); [|done].
  by destruct (navigate E fuel w _ ∅ ∅) as [[]|].
Qed.

(** [navigate] writes the current route and nothing else of the router. *)
Lemma navigate_frame fuel : ∀ w routeId params query b w',
  navigate E fuel w routeId params query = Some (b, w') →
  routes (router w') = routes (router w) ∧
  history (router w') = history (router w) ∧
  maxHistorySize (router w') = maxHistorySize (router w) ∧
  menuConfig (app w') = menuConfig (app w).
Proof.
  induction fuel as [|fuel IH]; intros w routeId params query b w' Hnav;
    [done|].
  destruct (routes (router w) !! routeId) as [route|] eqn:Hroute.
  - destruct (route_requiresAuth route && negb (checkAuthentication (router w)))
      eqn:Hauth.
    + simpl in Hnav. rewrite Hroute, Hauth in Hnav.
      destruct (navigate E fuel w "login" ∅ ∅) as [[b1 w1]|] eqn:Hlogin;
        [|done].
      simpl in Hnav. injection Hnav as <- <-. by eapply IH.
    + destruct (navigate_known fuel w routeId params query route Hroute Hauth)
        as (w1 & Heq & Hmenu & Hw1).
      rewrite Heq in Hnav. injection Hnav as <- <-.
      destruct (executeBeforeNavigationHooks _ _); [|by subst].
      by rewrite Hw1.
  - rewrite navigate_unknown_step in Hnav by done.
    destruct (decide _); [|by injection Hnav as <- <-].
    destruct (navigate E fuel w _ ∅ ∅) as [[b1 w1]|] eqn:Hfallback; [|done].
    simpl in Hnav. injection Hnav as <- <-. by eapply IH.
Qed.

Section Authorized.
Hypothesis authorized : ∀ r, checkAuthentication r = true.

Lemma authorization_passes route w :
  route_requiresAuth route && negb (checkAuthentication (router w)) = false.
Proof. rewrite authorized. apply andb_false_r. Qed.

Lemma navigate_total fuel w routeId params query :
  ∃ b w', navigate E (S (S fuel)) w routeId params query = Some (b, w').
Proof.
  destruct (routes (router w) !! routeId) as [route|] eqn:Hroute.
  - destruct (navigate_known (S fuel) w routeId params query route Hroute
                (authorization_passes route w)) as (w' & Heq & _).
    eauto.
  - rewrite navigate_unknown_step by done.
    destruct (decide _); [|by eauto].
    destruct (routes (router w) !! defaultModule (app w)) as [route|] eqn:Hdef.
    + destruct (navigate_known fuel w (defaultModule (app w)) ∅ ∅ route Hdef
                  (authorization_passes route w)) as (w' & -> & _).
      simpl. eauto.
    + rewrite navigate_unknown_step by done.
      rewrite decide_False by (by intros []). simpl. eauto.
Qed.


End Authorized.

Lemma goBack_frame fuel w b w' :
  goBack E fuel w = Some (b, w') →
  history (router w') = removelast (history (router w)) ∧
  maxHistorySize (router w') = maxHistorySize (router w).
Proof.
  unfold goBack. intros Hback.
  destruct (last (history (router w))) as [entry|] eqn:Hlast.
  - destruct (navigate E fuel _ _ _ _) as [[b1 w1]|] eqn:Hnav; [|done].
    simpl in Hback. injection Hback as <- <-.
    apply navigate_frame in Hnav as (_ & Hh & Hm & _). by rewrite Hh, Hm.
  - destruct (navigate E fuel _ _ _ _) as [[b1 w1]|] eqn:Hnav; [|done].
    simpl in Hback. injection Hback as <- <-.
    apply navigate_frame in Hnav as (_ & Hh & Hm & _). rewrite Hh, Hm.
    apply last_None in Hlast. by rewrite Hlast.
Qed.

(** ** The history buffer *)

Lemma saveToHistory_bounded now r route :
  bounded r → bounded (saveToHistory now r route).
Proof.
  unfold bounded, saveToHistory. intros Hr.
  destruct route as [route|]; [|done].
  destruct (decide (Some _ ≠ _)); [|done].
  destruct (decide (_ < _)%nat) as [Hlt|Hge]; simpl.
  - rewrite length_tl, length_app. simpl. lia.
  - lia.
Qed.

Lemma saveToHistory_evicts_oldest now r route :
  Some (route_id route) ≠ route_id <$> currentRoute r →
  length (history r) = maxHistorySize r → (0 < maxHistorySize r)%nat →
  history (saveToHistory now r (Some route))
  = tail (history r) ++
    [mkHistoryEntry (route_id route) (route_params route) (route_query route)
       now].
Proof.
  intros Hdiff Hfull Hpos. unfold saveToHistory.
  rewrite decide_True by done.
  rewrite decide_True by (rewrite length_app; simpl; lia). simpl.
  destruct (history r); [simpl in *; lia|done].
Qed.

Lemma run_bounded fuel commands : ∀ w w',
  run E fuel w commands = Some w' → bounded (router w) → bounded (router w').
Proof.
  unfold run, bounded.
  induction commands as [|c commands IH]; intros w w' Hrun Hw.
  - by injection Hrun as <-.
  - simpl in Hrun. destruct (step E fuel w c) as [w1|] eqn:Hstep; [|done].
    simpl in Hrun. eapply IH; [done|].
    destruct c as [routeId params query|]; simpl in Hstep.
    + destruct (navigate E fuel w routeId params query) as [[b w2]|] eqn:Hnav;
        [|done].
      injection Hstep as <-.
      apply navigate_frame in Hnav as (_ & Hh & Hm & _). by rewrite Hh, Hm.
    + destruct (goBack E fuel w) as [[b w2]|] eqn:Hback; [|done].
      injection Hstep as <-.
      apply goBack_frame in Hback as [Hh Hm]. rewrite Hh, Hm.
      pose proof (length_removelast_le (history (router w))). lia.
Qed.


End RouterFacts.

(** ** Route registration *)

Lemma registerRoute_returned r routeId routeConfig r' :
  registerRoute r routeId routeConfig = Returned r' →
  ∃ route,
    r' = setRoutes (<[routeId := route]> (routes r)) r ∧
    route_id route = routeId ∧
    route_path route = normalizePath (requestedPath (routeId, routeConfig)).
Proof.
  unfold registerRoute. destruct (config_module routeConfig) as [module|]; [|done].
  destruct (Str.truthy module); [|done].
  intros [= <-]. by eexists.
Qed.

Lemma registerRoute_keyed r routeId routeConfig r' :
  registerRoute r routeId routeConfig = Returned r' →
  keyed (routes r) → keyed (routes r').
Proof.
  intros (route & -> & Hid & _)%registerRoute_returned Hr.
  by apply map_Forall_insert_2.
Qed.

Lemma registerAll_keyed calls : ∀ r,
  keyed (routes r) → keyed (routes (registerAll r calls)).
Proof.
  induction calls as [|[routeId routeConfig] calls IH]; intros r Hr; [done|].
  simpl. apply IH.
  destruct (registerRoute r routeId routeConfig) as [r'|] eqn:Hreg; [|done].
  by eapply registerRoute_keyed.
Qed.




Lemma normalizePath_unmarked path :
  doublyMarked path = false → marked (normalizePath path) = false.
Proof.
  unfold doublyMarked, normalizePath, marked.
  destruct (Str.startsWith "#" path) eqn:Hpath; [|by rewrite Hpath].
  simpl. by intros Hrest.
Qed.

(** ** Navigation *)

(** C4.  When the pre-navigation hook chain vetoes, [navigate] returns
    [false] and the router is as it was: same current route, same history,
    same route table.  (The call to [saveToHistory] that precedes the hooks
    writes nothing, see [saveToHistory_current].) *)
Theorem navigate_vetoed (E : Env) (H : Hooks) (fuel : nat) (w : World)
    (routeId : string) (params query : gmap string Value) (route : Route) :
  routes (router w) !! routeId = Some route →
  (route_requiresAuth route = true → checkAuthentication (router w) = true) →
  executeBeforeNavigationHooks (router w) (prepare route params query) = false →
  ∃ w',
    navigate E (S fuel) w routeId params query = Some (false, w') ∧
    currentRoute (router w') = currentRoute (router w) ∧
    history (router w') = history (router w) ∧
    routes (router w') = routes (router w) ∧
    w' = w.
Proof.
  intros Hroute Hcheck Hveto.
  destruct (navigate_known E fuel w routeId params query route Hroute)
    as (w' & Hnav & _ & Hw').
  { destruct (route_requiresAuth route); [|done]. by rewrite Hcheck. }
  rewrite Hveto in Hnav, Hw'. subst w'. by exists w.
Qed.

Lemma navigate_vetoed_witness :
  routes (router sampleWorld) !! "accueil" = Some accueilRoute ∧
  ∃ w',
    navigate sampleEnv (H := vetoHooks) 1 sampleWorld "accueil" ∅ ∅
    = Some (false, w') ∧
    currentRoute (router w') = currentRoute (router sampleWorld) ∧
    history (router w') = history (router sampleWorld) ∧
    routes (router w') = routes (router sampleWorld) ∧
    w' = sampleWorld.
Proof.
  assert (routes (router sampleWorld) !! "accueil" = Some accueilRoute)
    as Hroute by (vm_compute; reflexivity).
  split; [exact Hroute|].
  apply (navigate_vetoed sampleEnv vetoHooks 0 sampleWorld "accueil" ∅ ∅
           accueilRoute Hroute); reflexivity.
Defined.

(** C3 (the code departs from it).  Two successful navigations on the sample
    application, the second one away from the route of the first: both
    return [true], the current route moves from [accueil] to [statistiques],
    and the history is still empty.  [navigate] passes [this.currentRoute]
    to [saveToHistory], which compares the id of its argument with the id of
    [this.currentRoute]; [navigate_frame] shows the history is never written
    by [navigate]. *)
Theorem navigate_away_saves_nothing :
  ∃ w1 w2,
    navigate sampleEnv (H := sourceHooks) 1 sampleWorld "accueil" ∅ ∅
    = Some (true, w1) ∧
    navigate sampleEnv (H := sourceHooks) 1 w1 "statistiques" ∅ ∅
    = Some (true, w2) ∧
    route_id <$> getCurrentRoute (router w1) = Some "accueil" ∧
    route_id <$> getCurrentRoute (router w2) = Some "statistiques" ∧
    history (router w2) = [].
Proof.
  eexists _, _. split_and!.
  - vm_compute. reflexivity.
  - vm_compute. reflexivity.
  - reflexivity.
  - reflexivity.
  - reflexivity.
Qed.




(** ** History *)





(** The empty history: [goBack()] falls back on the default route and
    returns [false]. *)
Example goBack_empty :
  ∃ w',
    goBack sampleEnv (H := sourceHooks) 2 sampleWorld = Some (false, w') ∧
    getCurrentRoute (router w') = Some accueilRoute.
Proof. eexists. split; [vm_compute; reflexivity|reflexivity]. Qed.

(** ** Module cache *)

Lemma fetches_log_render events html instance :
  fetches (events ++ [Render html instance]) = fetches events.
Proof. unfold fetches. rewrite filter_app. simpl. apply app_nil_r. Qed.

Lemma loadModule_hit (E : Env) w moduleId cached :
  loadedModules (app w) !! moduleId = Some cached →
  loadModule E w moduleId
  = (Returned (),
     renderModule w (entry_html cached) (entry_instance cached)).
Proof. intros Hcached. unfold loadModule. by rewrite Hcached. Qed.

Lemma loadModule_miss (E : Env) w moduleId :
  loadedModules (app w) !! moduleId = None →
  fetches (trace (loadModule E w moduleId).2)
  = fetches (trace w) ++
    [FetchFile (templateOf moduleId); LoadScript (scriptOf moduleId)].
Proof.
  intros Hmiss. unfold loadModule. rewrite Hmiss.
  destruct (loadVersionedFile E _); simpl.
  - rewrite fetches_log_render. unfold fetches.
    rewrite !filter_app, <- app_assoc. reflexivity.
  - unfold fetches. rewrite !filter_app, <- app_assoc. reflexivity.
Qed.

(** C8.  [loadModule] is cache-first.  After a first [loadModule(moduleId)]
    that succeeds, the cache holds an entry for the module, and a second
    [loadModule(moduleId)] renders the markup and the instance of that entry
    and requests nothing from the asset loader; when the first call was a
    miss, the entry holds the markup it fetched, and over the two calls the
    template and the script were requested once.  Once [clearCache] has
    run, the next call requests them again. *)
Theorem loadModule_cache_first (E : Env) (w w1 : World) (moduleId : string) :
  loadModule E w moduleId = (Returned (), w1) →
  ∃ cached,
    loadedModules (app w1) !! moduleId = Some cached ∧
    loadModule E w1 moduleId
    = (Returned (),
       renderModule w1 (entry_html cached) (entry_instance cached)) ∧
    trace (loadModule E w1 moduleId).2
    = trace w1 ++ [Render (entry_html cached) (entry_instance cached)] ∧
    fetches (trace (loadModule E w1 moduleId).2) = fetches (trace w1) ∧
    app (loadModule E w1 moduleId).2 = app w1 ∧
    (loadedModules (app w) !! moduleId = None →
       loadVersionedFile E (templateOf moduleId) = Returned (entry_html cached) ∧
       fetches (trace (loadModule E w1 moduleId).2)
       = fetches (trace w) ++
         [FetchFile (templateOf moduleId); LoadScript (scriptOf moduleId)]) ∧
    fetches (trace (loadModule E (clearCache w1) moduleId).2)
    = fetches (trace w1) ++
      [FetchFile (templateOf moduleId); LoadScript (scriptOf moduleId)].
Proof.
  intros Hfirst.
  assert (∃ cached, loadedModules (app w1) !! moduleId = Some cached ∧
            (loadedModules (app w) !! moduleId = None →
             loadVersionedFile E (templateOf moduleId)
             = Returned (entry_html cached))) as (cached & Hcached & Hfetched).
  { unfold loadModule in Hfirst.
    destruct (loadedModules (app w) !! moduleId) as [entry|] eqn:Hw.
    - injection Hfirst as <-. by exists entry.
    - destruct (loadVersionedFile E _) as [html|] eqn:Hhtml; [|done].
      injection Hfirst as <-. eexists. split; [apply lookup_insert_eq|done]. }
  exists cached. rewrite (loadModule_hit E w1 moduleId cached Hcached). simpl.
  split_and!; [done|done|done|apply fetches_log_render|done| |].
  - intros Hmiss. split; [by apply Hfetched|].
    rewrite fetches_log_render.
    pose proof (loadModule_miss E w moduleId Hmiss) as Hrequests.
    by rewrite Hfirst in Hrequests.
  - by rewrite loadModule_miss.
Qed.

Lemma loadModule_cache_first_witness :
  ∃ w1 cached,
    loadModule sampleEnv sampleWorld "accueil" = (Returned (), w1) ∧
    loadedModules (app w1) !! "accueil" = Some cached ∧
    trace w1
    = [FetchFile "templates/modules/accueil.html";
       LoadScript "js/modules/accueil.js";
       Render (entry_html cached) (Some "AccueilModule")] ∧
    trace (loadModule sampleEnv w1 "accueil").2
    = trace w1 ++ [Render (entry_html cached) (Some "AccueilModule")].
Proof.
  assert (∃ w1, loadModule sampleEnv sampleWorld "accueil" = (Returned (), w1))
    as [w1 Hfirst] by (eexists; vm_compute; reflexivity).
  destruct (loadModule_cache_first sampleEnv sampleWorld w1 "accueil" Hfirst)
    as (cached & Hcached & _ & Htrace & _).
  exists w1, cached. vm_compute in Hfirst. injection Hfirst as <-.
  vm_compute in Hcached. injection Hcached as <-.
  split_and!; [vm_compute; reflexivity|vm_compute; reflexivity|reflexivity|].
  exact Htrace.
Defined.

(** ** Route table *)

Lemma registerRoute_unmarked r routeId routeConfig r' :
  registerRoute r routeId routeConfig = Returned r' →
  doublyMarked (requestedPath (routeId, routeConfig)) = false →
  map_Forall (λ _ route, marked (route_path route) = false) (routes r) →
  map_Forall (λ _ route, marked (route_path route) = false) (routes r').
Proof.
  intros (route & -> & _ & Hpath)%registerRoute_returned Hcall Hr.
  apply map_Forall_insert_2; [|done].
  rewrite Hpath. by apply normalizePath_unmarked.
Qed.

(** The claim of C9 as the specification words it fails: one leading marker
    is stripped, so a path given with two is stored with one. *)
Lemma registerRoute_keeps_second_marker :
  ∃ r' route,
    registerRoute newRouter "stats" (sampleConfig "##stats" "stats" "Stats")
    = Returned r' ∧
    routes r' !! "stats" = Some route ∧
    route_path route = "#stats" ∧
    Str.startsWith "#" (route_path route) = true.
Proof.
  eexists _, _. split_and!; [reflexivity|vm_compute; reflexivity|done..].
Qed.

(** C9, amended.  [registerRoute] fails when [config.module] is absent and
    otherwise stores, under the route id, a route whose path is the path
    asked for ([config.path], or the id when [config.path] is absent or
    empty) with one leading marker stripped.  So after any sequence of
    [registerRoute] calls none of which asks for a path that starts with two
    markers, on a table whose paths have no leading marker, every stored
    route has a path with no leading marker. *)
Theorem registerRoute_strips_marker (r : Router)
    (calls : list (string * RouteConfig)) :
  map_Forall (λ _ route, marked (route_path route) = false) (routes r) →
  Forall (λ call, doublyMarked (requestedPath call) = false) calls →
  map_Forall (λ _ route, marked (route_path route) = false)
    (routes (registerAll r calls)) ∧
  (∀ routeId routeConfig,
     config_module routeConfig = None →
     ∃ message, registerRoute r routeId routeConfig = Thrown message) ∧
  (∀ routeId routeConfig r',
     registerRoute r routeId routeConfig = Returned r' →
     ∃ route,
       routes r' !! routeId = Some route ∧
       route_path route = normalizePath (requestedPath (routeId, routeConfig))) ∧
  (∀ path, normalizePath ("#" +:+ path) = path) ∧
  (∀ path, marked path = false → normalizePath path = path).
Proof.
  intros Hr Hcalls. split; [|split; [|split; [|split]]].
  - revert r Hr. induction Hcalls as [|[routeId routeConfig] calls Hcall _ IH];
      intros r Hr; [done|].
    simpl. apply IH.
    destruct (registerRoute r routeId routeConfig) as [r'|] eqn:Hreg; [|done].
    by eapply registerRoute_unmarked.
  - intros routeId routeConfig Hmodule. unfold registerRoute.
    rewrite Hmodule. by eexists.
  - intros routeId routeConfig r' (route & -> & _ & Hpath)%registerRoute_returned.
    exists route. split; [apply lookup_insert_eq|done].
  - done.
  - intros path Hpath. unfold normalizePath. unfold marked in Hpath.
    by rewrite Hpath.
Qed.

Lemma registerRoute_strips_marker_witness :
  map_Forall (λ _ route, marked (route_path route) = false)
    (routes (registerAll newRouter
               [ ("accueil", sampleConfig "#accueil" "accueil" "Accueil");
                 ("sans-module", mkRouteConfig None None None None None None);
                 ("#stats", mkRouteConfig None (Some "stats") None None None None) ])).
Proof.
  apply (registerRoute_strips_marker newRouter).
  - apply map_Forall_empty.
  - repeat constructor.
Defined.

(** ** Query strings: the claims *)

(** The claim of C5 as the specification words it fails: the string built
    starts with [?], which [parseQueryString] takes into the first key. *)
Lemma parse_build_keeps_question_mark :
  Query.buildQueryString {["a" := VString "1"]} = "?a=1" ∧
  Query.parseQueryString (Query.buildQueryString {["a" := VString "1"]})
  = Some {["?a" := VString "1"]} ∧
  Query.parseQueryString (Query.buildQueryString {["a" := VString "1"]})
  ≠ Some {["a" := VString "1"]}.
Proof.
  assert (Query.parseQueryString (Query.buildQueryString {["a" := VString "1"]})
          = Some {["?a" := VString "1"]}) as Hparsed
    by (vm_compute; reflexivity).
  split_and!; [vm_compute; reflexivity|exact Hparsed|].
  rewrite Hparsed. intros Hmaps. apply (inj Some) in Hmaps.
  apply (f_equal (lookup "a")) in Hmaps. vm_compute in Hmaps. discriminate.
Qed.

(** C5, amended.  For every finite mapping [q] whose keys are well-formed
    strings, not empty and other than [__proto__], and whose values are
    [true] or well-formed strings that are not empty, [parseQueryString]
    applied to [buildQueryString(q)] without its leading [?] yields [q]. *)
Theorem parse_build_roundtrip (q : gmap string Value) :
  map_Forall Query.portable q →
  Query.parseQueryString (Str.substring1 (Query.buildQueryString q)) = Some q.
Proof. apply parse_build_portable. Qed.

Lemma parse_build_roundtrip_witness :
  Query.parseQueryString
    (Str.substring1
       (Query.buildQueryString
          {["saison" := VString "2024/2025"; "club" := VString "é&=?";
            "actifs" := VTrue]}))
  = Some {["saison" := VString "2024/2025"; "club" := VString "é&=?";
           "actifs" := VTrue]}.
Proof.
  apply parse_build_roundtrip.
  repeat (apply map_Forall_insert_2; [by vm_compute|]).
  apply map_Forall_empty.
Defined.

(** C10.  A segment made of a key, [=] and an empty value is parsed to the
    key bound to [true], not to the empty string; so the mapping
    [{key: ""}] is not what parsing its built query string gives back, with
    the leading [?] or without it. *)
Theorem parse_empty_value_is_true (params : gmap string Value) (key : string) :
  key ≠ "" → Str.lacks "=" key = true →
  Query.parseParam params (key +:+ "=")
  = (k ← Uri.decodeURIComponent key; Some (Query.assign params k VTrue)) ∧
  Query.parseQueryString "key=" = Some {["key" := VTrue]} ∧
  ∃ q : gmap string Value,
    q !! "key" = Some (VString "") ∧
    Query.buildQueryString q = "?key=" ∧
    Query.parseQueryString (Query.buildQueryString q) ≠ Some q ∧
    Query.parseQueryString (Str.substring1 (Query.buildQueryString q))
    = Some {["key" := VTrue]} ∧
    Query.parseQueryString (Str.substring1 (Query.buildQueryString q)) ≠ Some q.
Proof.
  intros Hkey Hlacks. split_and!.
  - unfold Query.parseParam.
    change (key +:+ "=") with (key +:+ String "=" "").
    rewrite split_app by done. simpl.
    rewrite truthy_nonempty by done.
    by destruct (Uri.decodeURIComponent key).
  - vm_compute. reflexivity.
  - exists {["key" := VString ""]}.
    assert (Query.parseQueryString
              (Query.buildQueryString {["key" := VString ""]})
            = Some {["?key" := VTrue]}) as Hliteral by (vm_compute; reflexivity).
    assert (Query.parseQueryString
              (Str.substring1 (Query.buildQueryString {["key" := VString ""]}))
            = Some {["key" := VTrue]}) as Hstripped by (vm_compute; reflexivity).
    split_and!.
    + vm_compute. reflexivity.
    + vm_compute. reflexivity.
    + rewrite Hliteral. intros Hmaps. apply (inj Some) in Hmaps.
      apply (f_equal (lookup "key")) in Hmaps. vm_compute in Hmaps.
      discriminate.
    + exact Hstripped.
    + rewrite Hstripped. intros Hmaps. apply (inj Some) in Hmaps.
      apply (f_equal (lookup "key")) in Hmaps. vm_compute in Hmaps.
      discriminate.
Qed.

Lemma parse_empty_value_is_true_witness :
  Query.parseParam {["page" := VString "2"]} ("filtre%20actif" +:+ "=")
  = Some {["page" := VString "2"; "filtre actif" := VTrue]}.
Proof.
  destruct (parse_empty_value_is_true {["page" := VString "2"]}
              "filtre%20actif") as [Hparam _]; [done|reflexivity|].
  rewrite Hparam. vm_compute. reflexivity.
Defined.

(** ** Examples *)

Example split_ampersand : Str.split "&" "a=1&b&&c=" = ["a=1"; "b"; ""; "c="].
Proof. reflexivity. Qed.

Example split_keeps_all_pieces : Str.split "=" "a=b=c" = ["a"; "b"; "c"].
Proof. reflexivity. Qed.

Example encode_sample :
  Uri.encodeURIComponent "a b&c=d/é" = "a%20b%26c%3Dd%2F%C3%A9".
Proof. reflexivity. Qed.

Example decode_sample :
  Uri.decodeURIComponent "a%20b%26c%3dd%2F%C3%A9" = Some "a b&c=d/é".
Proof. reflexivity. Qed.

Example decode_latin1_fails : Uri.decodeURIComponent "%E9" = None.
Proof. reflexivity. Qed.

Example decode_truncated_fails : Uri.decodeURIComponent "100%" = None.
Proof. reflexivity. Qed.

Example parse_sample :
  Query.parseQueryString "a=1&b&c=&=d&e=f=g"
  = Some {["a" := VString "1"; "b" := VTrue; "c" := VTrue; "e" := VString "f"]}.
Proof. vm_compute. reflexivity. Qed.

(** The entries left out of C5 as amended: an empty key is dropped by
    [parseQueryString], the key [__proto__] creates no property, an absent
    value is not serialized. *)
Example parse_build_empty_key :
  Query.parseQueryString
    (Str.substring1 (Query.buildQueryString {["" := VString "x"]}))
  = Some ∅.
Proof. vm_compute. reflexivity. Qed.

Example parse_build_proto_key :
  Query.parseQueryString
    (Str.substring1 (Query.buildQueryString {["__proto__" := VString "x"]}))
  = Some ∅.
Proof. vm_compute. reflexivity. Qed.

Example build_skips_nullish :
  Query.buildQueryString {["a" := VNullish; "b" := VTrue]} = "?b".
Proof. vm_compute. reflexivity. Qed.

Example parseCurrentURL_sample :
  parseCurrentURL newRouter
    (mkLocation "#statistiques?saison=2024%2F2025&actifs" "/" "")
  = Some ("statistiques",
          {["saison" := VString "2024/2025"; "actifs" := VTrue]}).
Proof. vm_compute. reflexivity. Qed.

Example sample_table :
  routes sampleRouter
  = {["accueil" := accueilRoute; "statistiques" := statistiquesRoute]}.
Proof. vm_compute. reflexivity. Qed.

(** The scenario of the specification: [accueil] registered, then
    [navigate("accueil")]. *)
Example navigate_accueil :
  ∃ w',
    navigate sampleEnv (H := sourceHooks) 1 sampleWorld "accueil" ∅ ∅
    = Some (true, w') ∧
    route_path <$> getCurrentRoute (router w') = Some "accueil" ∧
    trace w'
    = [ Address "#accueil"; Title "Accueil - Gestion Sportive";
        FetchFile "templates/modules/accueil.html";
        LoadScript "js/modules/accueil.js";
        Render "<section>templates/modules/accueil.html</section>"
          (Some "AccueilModule");
        Title "Accueil - Gestion Sportive"; ScrollToTop;
        Dispatch "router:navigate" accueilRoute None 1725667200000 ].
Proof. eexists. split_and!; [vm_compute; reflexivity|reflexivity..]. Qed.
(** * Further properties *)

(** ** The route table *)

(** X1.  A successful [registerRoute] makes the id known: [hasRoute] answers
    [true] and [getRoute] returns a route carrying the id and the module of
    the configuration; every other id reads as before, and the current
    route and the history are not touched.  Registering an id again
    replaces the route: nothing of the earlier registration is left. *)
Theorem registerRoute_then_getRoute (r r' : Router) (routeId : string)
    (routeConfig : RouteConfig) :
  registerRoute r routeId routeConfig = Returned r' →
  hasRoute r' routeId = true ∧
  (∃ route,
     getRoute r' routeId = Some route ∧ route_id route = routeId ∧
     config_module routeConfig = Some (route_module route) ∧
     route_params route = ∅ ∧ route_query route = ∅) ∧
  (∀ other, other ≠ routeId →
     getRoute r' other = getRoute r other ∧
     hasRoute r' other = hasRoute r other) ∧
  currentRoute r' = currentRoute r ∧ history r' = history r ∧
  ∀ again, registerRoute r' routeId again = registerRoute r routeId again.
Proof.
  intros Hreg. unfold registerRoute in Hreg.
  destruct (config_module routeConfig) as [module|] eqn:Hmodule; [|done].
  destruct (Str.truthy module) eqn:Htruthy; [|done].
  injection Hreg as <-. unfold hasRoute, getRoute. simpl.
  split_and!.
  - rewrite lookup_insert_eq. by apply bool_decide_eq_true_2.
  - eexists. by rewrite lookup_insert_eq.
  - intros other Hother. by rewrite lookup_insert_ne.
  - done.
  - done.
  - intros again. unfold registerRoute.
    destruct (config_module again) as [module'|]; [|done].
    destruct (Str.truthy module'); [|done].
    unfold setRoutes. simpl. by rewrite insert_insert_eq.
Qed.

Lemma registerRoute_then_getRoute_witness :
  ∃ r',
    registerRoute sampleRouter "accueil" (sampleConfig "#home" "tableau" "Bord")
    = Returned r' ∧
    hasRoute r' "accueil" = true ∧
    getRoute r' "statistiques" = Some statistiquesRoute.
Proof.
  eexists. split; [reflexivity|].
  destruct (registerRoute_then_getRoute sampleRouter _ "accueil"
              (sampleConfig "#home" "tableau" "Bord") eq_refl)
    as (Hhas & _ & Hothers & _).
  split; [exact Hhas|].
  destruct (Hothers "statistiques") as [-> _]; [done|].
  vm_compute. reflexivity.
Defined.

Lemma orElse_blankIsAbsent o d : orElse (blankIsAbsent o) d = orElse o d.
Proof.
  destruct o as [s|]; [|done]. simpl.
  destruct (Str.truthy s) eqn:Hs; simpl; by rewrite ?Hs.
Qed.

(** X2.  [registerRoute] reads an empty string like an absent property: an
    empty [path] or [title] falls back on the route id, an empty
    [description] or [icon] on its default, and an empty [module] is
    rejected like a missing one. *)
Theorem registerRoute_blank_is_absent (r : Router) (routeId : string)
    (routeConfig : RouteConfig) :
  registerRoute r routeId routeConfig
  = registerRoute r routeId (withoutBlanks routeConfig).
Proof.
  unfold registerRoute, withoutBlanks, requestedPath. simpl.
  rewrite !orElse_blankIsAbsent.
  destruct (config_module routeConfig) as [module|]; [|done]. simpl.
  destruct (Str.truthy module) eqn:Hmodule; [|done]. by rewrite Hmodule.
Qed.







(** ** Navigation, further *)

Lemma navigate_refused_step (E : Env) (H : Hooks) fuel w routeId params query
    route :
  routes (router w) !! routeId = Some route →
  route_requiresAuth route && negb (checkAuthentication (router w)) = true →
  navigate E (S fuel) w routeId params query
  = (w' ← snd <$> navigate E fuel w "login" ∅ ∅; Some (false, w')).
Proof. intros Hroute Hauth. simpl. by rewrite Hroute, Hauth. Qed.

(** X4.  A route that requires authentication, with a check that fails:
    [navigate] returns [false] and navigates to the route [login] instead,
    with no params and no query.  When [login] is registered and open, it
    becomes the current route (unless the hook chain vetoes); the protected
    route does not. *)
Theorem navigate_redirects_to_login (E : Env) (H : Hooks) (fuel : nat)
    (w : World) (routeId : string) (params query : gmap string Value)
    (route login : Route) :
  routes (router w) !! routeId = Some route →
  route_requiresAuth route = true →
  checkAuthentication (router w) = false →
  routes (router w) !! "login" = Some login →
  route_requiresAuth login = false →
  ∃ w',
    navigate E (S (S fuel)) w routeId params query = Some (false, w') ∧
    (∃ result, navigate E (S fuel) w "login" ∅ ∅ = Some (result, w')) ∧
    currentRoute (router w')
    = if executeBeforeNavigationHooks (router w) (prepare login ∅ ∅)
      then Some (prepare login ∅ ∅)
      else currentRoute (router w).
Proof.
  intros Hroute Hprotected Hfails Hlogin Hopen.
  destruct (navigate_known E fuel w "login" ∅ ∅ login Hlogin)
    as (w' & Hnav & _ & Hw'); [by rewrite Hopen|].
  exists w'. split_and!.
  - rewrite navigate_refused_step with (route := route)
      by by rewrite ?Hprotected, ?Hfails.
    by rewrite Hnav.
  - eauto.
  - destruct (executeBeforeNavigationHooks _ _); [by rewrite Hw'|by subst].
Qed.

Lemma navigate_redirects_to_login_witness :
  ∃ w',
    navigate sampleEnv (H := withAuthentication (λ _, false)) 2 guardedWorld
      "admin" {["onglet" := VString "droits"]} ∅
    = Some (false, w') ∧
    currentRoute (router w') = Some loginRoute.
Proof.
  destruct (navigate_redirects_to_login sampleEnv (withAuthentication (λ _, false))
              0 guardedWorld "admin" {["onglet" := VString "droits"]} ∅
              adminRoute loginRoute)
    as (w' & Hnav & _ & Hcurrent);
    [vm_compute; reflexivity|reflexivity|reflexivity|vm_compute; reflexivity
    |reflexivity|].
  exists w'. split; [exact Hnav|exact Hcurrent].
Defined.

(** X5.  Whatever it returns, [navigate] leaves the route table, the size
    limit of the history, the router configuration and the menu
    configuration as they were: the only field of the router it writes is
    the current route. *)
Theorem navigate_keeps_table (E : Env) (H : Hooks) (fuel : nat) :
  ∀ (w w' : World) (routeId : string) (params query : gmap string Value)
    (result : bool),
  navigate E fuel w routeId params query = Some (result, w') →
  routes (router w') = routes (router w) ∧
  maxHistorySize (router w') = maxHistorySize (router w) ∧
  config (router w') = config (router w) ∧
  menuConfig (app w') = menuConfig (app w).
Proof.
  induction fuel as [|fuel IH]; intros w w' routeId params query result Hnav;
    [done|].
  destruct (routes (router w) !! routeId) as [route|] eqn:Hroute.
  - destruct (route_requiresAuth route && negb (checkAuthentication (router w)))
      eqn:Hauth.
    + rewrite navigate_refused_step with (route := route) in Hnav by done.
      destruct (navigate E fuel w "login" ∅ ∅) as [[b1 w1]|] eqn:Hlogin;
        [|done].
      simpl in Hnav. injection Hnav as <- <-. by eapply IH.
    + destruct (navigate_known E fuel w routeId params query route Hroute Hauth)
        as (w1 & Heq & Hmenu & Hw1).
      rewrite Heq in Hnav. injection Hnav as <- <-.
      destruct (executeBeforeNavigationHooks _ _); [|by subst].
      by rewrite Hw1.
  - rewrite navigate_unknown_step in Hnav by done.
    destruct (decide _); [|by injection Hnav as <- <-].
    destruct (navigate E fuel w _ ∅ ∅) as [[b1 w1]|] eqn:Hfallback; [|done].
    simpl in Hnav. injection Hnav as <- <-. by eapply IH.
Qed.

Lemma navigate_keeps_table_witness :
  ∃ w',
    navigate sampleEnv (H := sourceHooks) 2 sampleWorld "unknown-id" ∅ ∅
    = Some (false, w') ∧
    routes (router w') = routes sampleRouter ∧
    maxHistorySize (router w') = 50%nat.
Proof.
  assert (∃ w', navigate sampleEnv (H := sourceHooks) 2 sampleWorld
                  "unknown-id" ∅ ∅ = Some (false, w')) as [w' Hnav]
    by (eexists; vm_compute; reflexivity).
  exists w'. split; [exact Hnav|].
  destruct (navigate_keeps_table sampleEnv sourceHooks 2 sampleWorld w'
              "unknown-id" ∅ ∅ false Hnav) as (-> & -> & _).
  by split.
Defined.



Lemma navigate_known_any_depth (E : Env) (H : Hooks) fuel fuel' w routeId
    params query route :
  routes (router w) !! routeId = Some route →
  route_requiresAuth route && negb (checkAuthentication (router w)) = false →
  navigate E (S fuel) w routeId params query
  = navigate E (S fuel') w routeId params query.
Proof. intros Hroute Hauth. simpl. by rewrite Hroute, Hauth. Qed.

(** X7.  With an authentication check that passes, the error handling of
    [navigate] cannot loop: a call nests at most one further call of
    [navigate] (the fallback), so it returns with a call depth of two, and a
    deeper stack changes nothing of its result. *)
Theorem navigate_nests_once (E : Env) (H : Hooks) (fuel : nat) (w : World)
    (routeId : string) (params query : gmap string Value) :
  (∀ r, checkAuthentication r = true) →
  is_Some (navigate E 2 w routeId params query) ∧
  navigate E (S (S fuel)) w routeId params query
  = navigate E 2 w routeId params query.
Proof.
  intros Hauth.
  assert (navigate E (S (S fuel)) w routeId params query
          = navigate E 2 w routeId params query) as Hsame.
  { destruct (routes (router w) !! routeId) as [route|] eqn:Hroute.
    - apply navigate_known_any_depth with (route := route); [done|].
      by apply authorization_passes.
    - rewrite (navigate_unknown_step E (S fuel)) by done.
      rewrite (navigate_unknown_step E 1) by done.
      destruct (decide _); [|done].
      destruct (routes (router w) !! defaultModule (app w)) as [fallback|]
        eqn:Hfallback.
      + rewrite navigate_known_any_depth
          with (fuel' := 0%nat) (route := fallback); [done..|].
        by apply authorization_passes.
      + rewrite (navigate_unknown_step E fuel) by done.
        rewrite (navigate_unknown_step E 0) by done.
        by rewrite !decide_False by (by intros []). }
  split; [|done]. rewrite <- Hsame.
  destruct (navigate_total E Hauth fuel w routeId params query) as (b & w' & ->).
  by eexists.
Qed.

Lemma navigate_nests_once_witness :
  navigate sampleEnv (H := sourceHooks) 7 sampleWorld "unknown-id" ∅ ∅
  = navigate sampleEnv (H := sourceHooks) 2 sampleWorld "unknown-id" ∅ ∅.
Proof.
  apply (navigate_nests_once sampleEnv sourceHooks 5 sampleWorld "unknown-id" ∅ ∅).
  intros r. reflexivity.
Defined.


(** ** Addresses *)

(** X10.  In hash mode [parseCurrentURL] takes the path up to the first [?]
    and the query string up to the second one: whatever follows a second
    [?] is not read.  A hash with no [?], or with nothing after it, gives
    the empty query, and the empty hash gives the empty path. *)
Theorem parseCurrentURL_reads_two_pieces (r : Router)
    (path queryString rest pathname search : string) :
  hashMode (config r) = true →
  Str.lacks "?" path = true → Str.lacks "?" queryString = true →
  parseCurrentURL r
    (mkLocation ("#" +:+ path +:+ "?" +:+ queryString +:+ "?" +:+ rest)
       pathname search)
  = parseCurrentURL r
      (mkLocation ("#" +:+ path +:+ "?" +:+ queryString) pathname search) ∧
  parseCurrentURL r
    (mkLocation ("#" +:+ path +:+ "?" +:+ queryString) pathname search)
  = (query ← Query.parseQueryString queryString; Some (path, query)) ∧
  parseCurrentURL r (mkLocation ("#" +:+ path) pathname search)
  = Some (path, ∅) ∧
  parseCurrentURL r (mkLocation "" pathname search) = Some ("", ∅).
Proof.
  intros Hmode Hpath Hquery. unfold parseCurrentURL. rewrite Hmode.
  change (Str.substring1 (location_hash (mkLocation
            ("#" +:+ path +:+ "?" +:+ queryString +:+ "?" +:+ rest) pathname
            search)))
    with (path +:+ String "?" (queryString +:+ String "?" rest)).
  change (Str.substring1 (location_hash (mkLocation
            ("#" +:+ path +:+ "?" +:+ queryString) pathname search)))
    with (path +:+ String "?" queryString).
  change (Str.substring1 (location_hash (mkLocation ("#" +:+ path) pathname
            search))) with path.
  rewrite !split_app by done. rewrite !split_lacks by done.
  split_and!; [done| |done..].
  unfold Query.parseQueryString.
  destruct (Str.truthy queryString); [|done].
  by destruct (forEach _ _ _).
Qed.

Lemma parseCurrentURL_reads_two_pieces_witness :
  parseCurrentURL newRouter (mkLocation "#equipes?tri=nom?page=2" "/" "")
  = Some ("equipes", {["tri" := VString "nom"]}).
Proof.
  destruct (parseCurrentURL_reads_two_pieces newRouter "equipes" "tri=nom"
              "page=2" "/" "") as (Hrest & Htwo & _); [reflexivity..|].
  change (mkLocation "#equipes?tri=nom?page=2" "/" "")
    with (mkLocation ("#" +:+ "equipes" +:+ "?" +:+ "tri=nom" +:+ "?" +:+ "page=2")
            "/" "").
  rewrite Hrest, Htwo. vm_compute. reflexivity.
Defined.

(** ** Query strings, further *)

Lemma unescape_truthy s bytes :
  Str.truthy s = true → Uri.unescape s = Some bytes → bytes ≠ "".
Proof.
  destruct s as [|c s]; [done|]. intros _.
  destruct (decide (c = "%"%char)) as [->|Hc].
  - destruct s as [|h [|l s]]; [done..|]. simpl.
    destruct (Uri.hexValue h); [|done]. destruct (Uri.hexValue l); [|done].
    simpl. destruct (Uri.unescape s); [|done]. simpl. by intros [= <-].
  - assert (Uri.unescape (String c s) = String c <$> Uri.unescape s) as ->.
    { by destruct c as [[] [] [] [] [] [] [] []]. }
    destruct (Uri.unescape s); [|done]. simpl. by intros [= <-].
Qed.

Lemma decode_truthy s decoded :
  Str.truthy s = true → Uri.decodeURIComponent s = Some decoded →
  decoded ≠ "" ∧ Uri.utf8 decoded = true.
Proof.
  intros Hs. unfold Uri.decodeURIComponent.
  destruct (Uri.unescape s) as [bytes|] eqn:Hbytes; [|done]. simpl.
  destruct (Uri.utf8 bytes) eqn:Hutf; [|done]. intros [= <-].
  split; [by eapply unescape_truthy|done].
Qed.

Lemma parseParam_keeps_portable params param params' :
  Query.parseParam params param = Some params' →
  map_Forall Query.portable params → map_Forall Query.portable params'.
Proof.
  unfold Query.parseParam. intros Hparse Hparams.
  destruct (Str.split "=" param) as [|key rest]; [by injection Hparse as <-|].
  destruct (Str.truthy key) eqn:Hkey; [|by injection Hparse as <-].
  destruct (Uri.decodeURIComponent key) as [k|] eqn:Hk; [|done].
  apply decode_truthy in Hk as [Hk Hkutf]; [|done]. simpl in Hparse.
  assert (∀ v, Query.portable k v ∨ k = "__proto__" →
               map_Forall Query.portable (Query.assign params k v)) as Hassign.
  { intros v Hv. unfold Query.assign.
    destruct (decide (k = "__proto__")) as [|Hproto]; [done|].
    apply map_Forall_insert_2; [|done]. by destruct Hv. }
  destruct rest as [|value rest].
  - simpl in Hparse. injection Hparse as <-. apply Hassign.
    destruct (decide (k = "__proto__")); [by right|by left].
  - destruct (Str.truthy value) eqn:Hvalue.
    + destruct (Uri.decodeURIComponent value) as [s|] eqn:Hs; [|done].
      apply decode_truthy in Hs as [Hs Hsutf]; [|done].
      simpl in Hparse. injection Hparse as <-. apply Hassign.
      destruct (decide (k = "__proto__")); [by right|by left].
    + simpl in Hparse. injection Hparse as <-. apply Hassign.
      destruct (decide (k = "__proto__")); [by right|by left].
Qed.

Lemma forEach_keeps {S A} (P : S → Prop) (f : S → A → option S) l : ∀ s s',
  (∀ s x s', f s x = Some s' → P s → P s') →
  forEach f s l = Some s' → P s → P s'.
Proof.
  induction l as [|x l IH]; intros s s' Hf Hrun Hs.
  - by injection Hrun as <-.
  - simpl in Hrun. destruct (f s x) as [s1|] eqn:Hx; [|done]. simpl in Hrun.
    eapply IH; [done..|]. by eapply Hf.
Qed.

(** X11.  What [parseQueryString] returns is made of portable entries: no
    empty key, no empty string for a value (a value is [true] or a string
    that is not empty), every key and value a well-formed string.  So the
    result is what parsing its own built query string gives: building and
    parsing again changes nothing. *)
Theorem parseQueryString_normalizes (queryString : string)
    (q : gmap string Value) :
  Query.parseQueryString queryString = Some q →
  map_Forall Query.portable q ∧
  q !! "" = None ∧
  (∀ k, q !! k ≠ Some (VString "") ∧ q !! k ≠ Some VNullish) ∧
  Query.parseQueryString (Str.substring1 (Query.buildQueryString q)) = Some q.
Proof.
  intros Hparse.
  assert (map_Forall Query.portable q) as Hq.
  { unfold Query.parseQueryString in Hparse.
    destruct (Str.truthy queryString).
    - eapply (forEach_keeps (map_Forall Query.portable)); [|done|].
      + intros ???. apply parseParam_keeps_portable.
      + apply map_Forall_empty.
    - injection Hparse as <-. apply map_Forall_empty. }
  split_and!; [done| | |by apply parse_build_portable].
  - destruct (q !! "") as [v|] eqn:Hempty; [|done].
    by apply Hq in Hempty as [? _].
  - intros k. split; intros Hk; apply Hq in Hk as (_ & _ & _ & Hv); [|done].
    by destruct Hv.
Qed.

Lemma parseQueryString_normalizes_witness :
  Query.parseQueryString
    (Str.substring1
       (Query.buildQueryString
          {["a" := VString "1"; "b" := VTrue; "c" := VTrue]}))
  = Some {["a" := VString "1"; "b" := VTrue; "c" := VTrue]}.
Proof.
  apply (parseQueryString_normalizes "=x&a=1&b&c=&&a=1").
  vm_compute. reflexivity.
Defined.

Lemma split_nonempty sep s : Str.split sep s ≠ [].
Proof.
  destruct s as [|c s]; [done|]. simpl.
  destruct (decide (c = sep)); [done|]. by destruct (Str.split sep s).
Qed.

Lemma split_append_separator sep s :
  Str.split sep (s +:+ String sep "") = Str.split sep s ++ [""].
Proof.
  induction s as [|c s IH].
  - change ("" +:+ String sep "") with (String sep ""). simpl.
    by rewrite decide_True.
  - rewrite app_cons. simpl. destruct (decide (c = sep)); rewrite IH; [done|].
    pose proof (split_nonempty sep s). by destruct (Str.split sep s).
Qed.

Lemma forEach_app {S A} (f : S → A → option S) l1 l2 : ∀ s,
  forEach f s (l1 ++ l2) = (s' ← forEach f s l1; forEach f s' l2).
Proof.
  induction l1 as [|x l1 IH]; intros s; [done|]. simpl.
  destruct (f s x) as [s1|]; [|done]. simpl. apply IH.
Qed.

(** X12.  [parseQueryString] skips empty segments, so a leading or a
    trailing [&] changes nothing; and of a segment it reads the key and the
    first value only: what follows a second [=] is dropped. *)
Theorem parseQueryString_skips (params : gmap string Value)
    (queryString key value rest : string) :
  queryString ≠ "" →
  Str.lacks "=" key = true → Str.lacks "=" value = true →
  Query.parseQueryString (queryString +:+ "&")
  = Query.parseQueryString queryString ∧
  Query.parseQueryString ("&" +:+ queryString)
  = Query.parseQueryString queryString ∧
  Query.parseParam params (key +:+ "=" +:+ value +:+ "=" +:+ rest)
  = Query.parseParam params (key +:+ "=" +:+ value).
Proof.
  intros Hnonempty%truthy_nonempty Hkey Hvalue. split_and!.
  - unfold Query.parseQueryString.
    rewrite truthy_app, Hnonempty by done.
    change (queryString +:+ "&") with (queryString +:+ String "&" "").
    rewrite split_append_separator, forEach_app.
    destruct (forEach _ _ _) as [q|]; [|done]. reflexivity.
  - unfold Query.parseQueryString. rewrite Hnonempty. reflexivity.
  - unfold Query.parseParam.
    change (key +:+ "=" +:+ value +:+ "=" +:+ rest)
      with (key +:+ String "=" (value +:+ String "=" rest)).
    change (key +:+ "=" +:+ value) with (key +:+ String "=" value).
    rewrite !split_app by done. by rewrite split_lacks by done.
Qed.

Lemma parseQueryString_skips_witness :
  Query.parseQueryString ("a=1&b" +:+ "&") = Some {["a" := VString "1"; "b" := VTrue]}
  ∧ Query.parseParam ∅ ("a" +:+ "=" +:+ "b" +:+ "=" +:+ "c")
    = Some {["a" := VString "b"]}.
Proof.
  destruct (parseQueryString_skips ∅ "a=1&b" "a" "b" "c")
    as (Htrailing & _ & Hsecond); [done|reflexivity..|].
  rewrite Htrailing, Hsecond. split; vm_compute; reflexivity.
Defined.

Lemma foldl_insert_reverse (entries : list (string * Value)) :
  ∀ params : gmap string Value,
  foldl (λ m e, <[e.1 := e.2]> m) params entries
  = foldr (λ e m, <[e.1 := e.2]> m) params (reverse entries).
Proof.
  induction entries as [|e entries IH]; intros params; [done|].
  rewrite reverse_cons, foldr_app. simpl. apply IH.
Qed.

(** X13.  [parseQueryString] reads the segments from left to right, a later
    segment overwriting an earlier one with the same key: for a list of
    portable entries, keys repeated or not, parsing the segments built for
    them, joined with [&], gives the mapping in which every key has the
    value of its last entry. *)
Theorem parseQueryString_last_wins (entries : list (string * Value)) :
  entries ≠ [] →
  Forall (λ e, Query.portable e.1 e.2) entries →
  Query.parseQueryString (Str.join "&" (omap Query.queryPart entries))
  = Some (list_to_map (reverse entries)).
Proof.
  intros Hnonempty Hentries.
  destruct (parse_parts entries ∅ Hentries) as [Hparts Hrun].
  rewrite foldl_insert_reverse in Hrun.
  destruct (omap Query.queryPart entries) as [|part parts] eqn:Homap.
  - destruct entries as [|[k v] entries]; [done|].
    apply Forall_cons in Hentries as [Hkv _].
    destruct (queryPart_portable k v Hkv) as (part & Hpart & _).
    by rewrite (omap_cons_Some _ _ _ _ Hpart) in Homap.
  - unfold Query.parseQueryString.
    apply Forall_cons in Hparts as Hparts'. destruct Hparts' as [[Htruthy _] _].
    rewrite truthy_join by done.
    rewrite split_join; [done|done|].
    eapply Forall_impl; [exact Hparts|]. intros p [_ Hp]. apply Hp.
    rewrite !elem_of_cons. auto.
Qed.

Lemma parseQueryString_last_wins_witness :
  Str.join "&"
    (omap Query.queryPart
       [("tri", VString "nom"); ("page", VString "1"); ("tri", VString "date")])
  = "tri=nom&page=1&tri=date" ∧
  Query.parseQueryString
    (Str.join "&"
       (omap Query.queryPart
          [("tri", VString "nom"); ("page", VString "1");
           ("tri", VString "date")]))
  = Some {["tri" := VString "date"; "page" := VString "1"]}.
Proof.
  split; [reflexivity|].
  rewrite parseQueryString_last_wins.
  - vm_compute. reflexivity.
  - done.
  - repeat constructor; by vm_compute.
Defined.

Lemma omap_queryPart_present (entries : list (string * Value)) :
  omap Query.queryPart entries
  = omap Query.queryPart (filter (λ e, present e.2 = true) entries).
Proof.
  induction entries as [|[k v] entries IH]; [done|].
  rewrite filter_cons. destruct v; simpl; [f_equal; apply IH..|apply IH].
Qed.

(** X14.  An entry whose value is [null] or [undefined] is not serialized
    by [buildQueryString]: when the other entries of a mapping are
    portable, parsing its built query string (without the leading [?])
    gives the mapping without those entries. *)
Theorem buildQueryString_drops_nullish (q : gmap string Value) :
  map_Forall (λ k v, present v = true → Query.portable k v) q →
  Query.parseQueryString (Str.substring1 (Query.buildQueryString q))
  = Some (filter (λ e, present e.2 = true) q).
Proof.
  intros Hq. rewrite map_filter_alt.
  set (kept := filter (λ e : string * Value, present e.2 = true) (map_to_list q)).
  assert (Forall (λ e, Query.portable e.1 e.2) kept) as Hkept.
  { apply Forall_forall. intros [k v] [Hpresent Hin]%list_elem_of_filter.
    apply elem_of_map_to_list in Hin. by apply (Hq k v). }
  assert (NoDup kept.*1) as Hnodup.
  { eapply sublist_NoDup; [apply (NoDup_fst_map_to_list q)|].
    apply fmap_sublist, sublist_filter. }
  destruct (parse_parts kept ∅ Hkept) as [Hparts Hrun].
  rewrite foldl_insert_entries, (right_id_L ∅ (∪)) in Hrun by done.
  unfold Query.buildQueryString.
  rewrite omap_queryPart_present. fold kept.
  destruct (omap Query.queryPart kept) as [|part parts].
  - simpl in Hrun. by rewrite <- Hrun.
  - change (Str.substring1 ("?" +:+ Str.join "&" (part :: parts)))
      with (Str.join "&" (part :: parts)).
    unfold Query.parseQueryString.
    apply Forall_cons in Hparts as Hparts'. destruct Hparts' as [[Htruthy _] _].
    rewrite truthy_join by done.
    rewrite split_join; [done|done|].
    eapply Forall_impl; [exact Hparts|]. intros p [_ Hp]. apply Hp.
    rewrite !elem_of_cons. auto.
Qed.

Lemma buildQueryString_drops_nullish_witness :
  Query.parseQueryString
    (Str.substring1
       (Query.buildQueryString
          {["page" := VString "2"; "" := VNullish; "filtre" := VNullish]}))
  = Some {["page" := VString "2"]}.
Proof.
  rewrite buildQueryString_drops_nullish.
  - vm_compute. reflexivity.
  - repeat (apply map_Forall_insert_2; [by vm_compute|]).
    apply map_Forall_empty.
Defined.

Lemma allChars_app p a b :
  allChars p (a +:+ b) = allChars p a && allChars p b.
Proof.
  induction a as [|c a IH]; [done|].
  rewrite app_cons. simpl. by rewrite IH, andb_assoc.
Qed.

Lemma encode_queryChars s : allChars queryChar (Uri.encodeURIComponent s) = true.
Proof.
  induction s as [|c s IH]; [done|]. simpl.
  assert (allChars queryChar
            (if Uri.unreserved c then String c "" else Uri.escape c) = true)
    as Hc by by destruct c as [[] [] [] [] [] [] [] []].
  destruct (Uri.unreserved c).
  - change (String c (Uri.encodeURIComponent s))
      with (String c "" +:+ Uri.encodeURIComponent s).
    by rewrite allChars_app, Hc, IH.
  - by rewrite allChars_app, Hc, IH.
Qed.

Lemma join_queryChars parts :
  Forall (λ part, allChars queryChar part = true) parts →
  allChars queryChar (Str.join "&" parts) = true.
Proof.
  induction 1 as [|part parts Hpart _ IH]; [done|].
  destruct parts as [|part' parts]; [done|].
  change (Str.join "&" (part :: part' :: parts))
    with (part +:+ "&" +:+ Str.join "&" (part' :: parts)).
  by rewrite !allChars_app, Hpart, IH.
Qed.

Lemma omap_nil_iff {A B} (f : A → option B) l :
  omap f l = [] ↔ Forall (λ x, f x = None) l.
Proof.
  induction l as [|x l IH]; [by split|]. simpl. split.
  - destruct (f x) eqn:Hx; [done|]. intros Hl. constructor; [done|by apply IH].
  - intros [Hx Hl]%Forall_cons. rewrite Hx. by apply IH.
Qed.

(** X15.  What [buildQueryString] returns, for any mapping: the empty
    string when no entry has a value ([null] and [undefined] aside), else a
    string that starts with [?]; and it is written with the characters that
    [encodeURIComponent] leaves alone and [%], [&], [=], [?] only, so no
    [#], no [/], no space, whatever the keys and the values hold. *)
Theorem buildQueryString_shape (q : gmap string Value) :
  (if bool_decide (map_Forall (λ _ v, present v = false) q)
   then Query.buildQueryString q = ""
   else Str.startsWith "?" (Query.buildQueryString q) = true) ∧
  allChars queryChar (Query.buildQueryString q) = true.
Proof.
  assert (Forall (λ part, allChars queryChar part = true)
            (omap Query.queryPart (map_to_list q))) as Hparts.
  { apply Forall_forall. intros part ([k v] & _ & Hpart)%list_elem_of_omap.
    unfold Query.queryPart in Hpart. simpl in Hpart.
    destruct v; [| |done]; injection Hpart as <-;
      by rewrite ?allChars_app, !encode_queryChars. }
  assert (omap Query.queryPart (map_to_list q) = []
          ↔ map_Forall (λ _ v, present v = false) q) as Hnone.
  { rewrite omap_nil_iff, Forall_forall. split.
    - intros Hall k v Hkv. apply elem_of_map_to_list in Hkv.
      apply Hall in Hkv. by destruct v.
    - intros Hall [k v] Hkv%elem_of_map_to_list. apply Hall in Hkv.
      by destruct v. }
  unfold Query.buildQueryString. split.
  - case_bool_decide as Hall.
    + apply Hnone in Hall. by rewrite Hall.
    + destruct (omap Query.queryPart (map_to_list q)); [|done].
      destruct Hall. by apply Hnone.
  - destruct (omap Query.queryPart (map_to_list q)) as [|part parts]; [done|].
    change ("?" +:+ Str.join "&" (part :: parts))
      with (String "?" "" +:+ Str.join "&" (part :: parts)).
    by rewrite allChars_app, join_queryChars.
Qed.

(** ** Module loading, further *)

(** X16.  A template that cannot be fetched: [loadModule] throws, having
    asked for the template and the script; it renders nothing and caches
    nothing, so the failure is not remembered and the next call asks for
    both again. *)
Theorem loadModule_template_failure (E : Env) (w : World) (moduleId : string)
    (message : string) :
  loadedModules (app w) !! moduleId = None →
  loadVersionedFile E (templateOf moduleId) = Thrown message →
  ∃ w' thrown,
    loadModule E w moduleId = (Thrown thrown, w') ∧
    app w' = app w ∧ router w' = router w ∧
    trace w'
    = trace w ++
      [FetchFile (templateOf moduleId); LoadScript (scriptOf moduleId)] ∧
    fetches (trace (loadModule E w' moduleId).2)
    = fetches (trace w') ++
      [FetchFile (templateOf moduleId); LoadScript (scriptOf moduleId)].
Proof.
  intros Hmiss Hfails. unfold loadModule at 1. rewrite Hmiss, Hfails.
  eexists _, _. split; [reflexivity|]. simpl.
  split_and!; [done|done|by rewrite <- app_assoc|].
  by apply loadModule_miss.
Qed.

Lemma loadModule_template_failure_witness :
  ∃ w' thrown,
    loadModule offlineEnv sampleWorld "accueil" = (Thrown thrown, w') ∧
    app w' = app sampleWorld ∧
    trace w'
    = [FetchFile "templates/modules/accueil.html";
       LoadScript "js/modules/accueil.js"].
Proof.
  destruct (loadModule_template_failure offlineEnv sampleWorld "accueil"
              "Erreur HTTP: 404 - Not Found")
    as (w' & thrown & Hload & Happ & _ & Htrace & _); [reflexivity..|].
  by exists w', thrown.
Defined.

(** X17.  The script of a module is optional.  On a cache miss, when the
    template is fetched, [loadModule] returns, caches and renders the
    markup whether or not the script loads; the instance cached and
    rendered is the one constructed after the script when the script
    loads, and none when it fails.  Every other cache entry is kept. *)
Theorem loadModule_script_optional (E : Env) (w : World) (moduleId : string)
    (html : string) :
  loadedModules (app w) !! moduleId = None →
  loadVersionedFile E (templateOf moduleId) = Returned html →
  let instance :=
    if loadVersionedScript E (scriptOf moduleId) then instantiate E moduleId
    else None in
  ∃ w',
    loadModule E w moduleId = (Returned (), w') ∧
    loadedModules (app w')
    = <[moduleId := mkModuleEntry html instance]> (loadedModules (app w)) ∧
    trace w'
    = trace w ++
      [FetchFile (templateOf moduleId); LoadScript (scriptOf moduleId);
       Render html instance] ∧
    currentModule (app w') = currentModule (app w) ∧ router w' = router w.
Proof.
  intros Hmiss Hhtml instance. unfold loadModule. rewrite Hmiss, Hhtml.
  eexists. split; [reflexivity|]. simpl.
  split_and!; [done| |done..]. by rewrite <- !app_assoc.
Qed.

Lemma loadModule_script_optional_witness :
  ∃ w',
    loadModule templatesOnlyEnv sampleWorld "accueil" = (Returned (), w') ∧
    loadedModules (app w') !! "accueil"
    = Some (mkModuleEntry "<section>templates/modules/accueil.html</section>"
              None).
Proof.
  destruct (loadModule_script_optional templatesOnlyEnv sampleWorld "accueil"
              "<section>templates/modules/accueil.html</section>")
    as (w' & Hload & Hcache & _); [reflexivity..|].
  exists w'. split; [exact Hload|]. rewrite Hcache. apply lookup_insert_eq.
Defined.

Lemma loadModule_keeps_cache (E : Env) w moduleId :
  loadedModules (app w) ⊆ loadedModules (app (loadModule E w moduleId).2).
Proof.
  unfold loadModule.
  destruct (loadedModules (app w) !! moduleId) eqn:Hcache; [done|].
  destruct (loadVersionedFile E _); [|done]. simpl.
  by apply insert_subseteq.
Qed.

Lemma navigateToModule_keeps_cache (E : Env) w moduleId updateHistory :
  loadedModules (app w)
  ⊆ loadedModules (app (navigateToModule E w moduleId updateHistory)).
Proof.
  unfold navigateToModule.
  destruct (menuConfig (app w)) as [menu|]; [|done].
  destruct (find _ _); [|done].
  pose proof (loadModule_keeps_cache E w moduleId) as Hload.
  destruct (loadModule E w moduleId) as [[[]|] w1]; [|done].
  simpl in Hload.
  by destruct (application_title menu), updateHistory.
Qed.

(** X18.  Navigation never drops or replaces a cache entry: whatever
    [navigate] returns, every module cached before the call is cached
    after it with the same markup and instance. *)
Theorem navigate_keeps_cache (E : Env) (H : Hooks) (fuel : nat) :
  ∀ (w w' : World) (routeId : string) (params query : gmap string Value)
    (result : bool),
  navigate E fuel w routeId params query = Some (result, w') →
  loadedModules (app w) ⊆ loadedModules (app w').
Proof.
  induction fuel as [|fuel IH]; intros w w' routeId params query result Hnav;
    [done|].
  destruct (routes (router w) !! routeId) as [route|] eqn:Hroute.
  - destruct (route_requiresAuth route && negb (checkAuthentication (router w)))
      eqn:Hauth.
    + rewrite navigate_refused_step with (route := route) in Hnav by done.
      destruct (navigate E fuel w "login" ∅ ∅) as [[b1 w1]|] eqn:Hlogin;
        [|done].
      simpl in Hnav. injection Hnav as <- <-. by eapply IH.
    + simpl in Hnav. rewrite Hroute, Hauth in Hnav.
      rewrite saveToHistory_current, withRouter_router in Hnav.
      destruct (executeBeforeNavigationHooks _ _);
        [|by injection Hnav as <- <-].
      injection Hnav as <- <-. unfold emitNavigationEvent.
      match goal with
      | |- context [navigateToModule E ?w1 ?m ?b] =>
          pose proof (navigateToModule_keeps_cache E w1 m b) as Hcache;
          destruct (config_scrollToTop
                      (config (router (navigateToModule E w1 m b))))
      end; simpl; etrans; [|exact Hcache| |exact Hcache];
        unfold updateURL; by destruct (hashMode _).
  - rewrite navigate_unknown_step in Hnav by done.
    destruct (decide _); [|by injection Hnav as <- <-].
    destruct (navigate E fuel w _ ∅ ∅) as [[b1 w1]|] eqn:Hfallback; [|done].
    simpl in Hnav. injection Hnav as <- <-. by eapply IH.
Qed.

Lemma navigate_keeps_cache_witness :
  ∃ w1 w2,
    navigate sampleEnv (H := sourceHooks) 1 sampleWorld "accueil" ∅ ∅
    = Some (true, w1) ∧
    navigate sampleEnv (H := sourceHooks) 1 w1 "statistiques" ∅ ∅
    = Some (true, w2) ∧
    loadedModules (app w1) ⊆ loadedModules (app w2).
Proof.
  assert (∃ w1, navigate sampleEnv (H := sourceHooks) 1 sampleWorld "accueil"
                  ∅ ∅ = Some (true, w1)) as [w1 Hfirst]
    by (eexists; vm_compute; reflexivity).
  assert (∃ w2, navigate sampleEnv (H := sourceHooks) 1 w1 "statistiques"
                  ∅ ∅ = Some (true, w2)) as [w2 Hsecond].
  { vm_compute in Hfirst. injection Hfirst as <-.
    eexists. vm_compute. reflexivity. }
  exists w1, w2. split_and!; [done..|].
  exact (navigate_keeps_cache sampleEnv sourceHooks 1 w1 w2 "statistiques" ∅ ∅
           true Hsecond).
Defined.

Lemma find_module_none (items : list MenuItem) moduleId :
  Forall (λ item, item_module item ≠ moduleId) items →
  find (λ item, bool_decide (item_module item = moduleId)) items = None.
Proof.
  induction 1 as [|item items Hitem _ IH]; [done|]. simpl.
  by rewrite bool_decide_eq_false_2.
Qed.

Lemma find_module_some (items : list MenuItem) moduleId item :
  item ∈ items → item_module item = moduleId →
  ∃ found, find (λ item, bool_decide (item_module item = moduleId)) items
           = Some found ∧ item_module found = moduleId.
Proof.
  intros Hin Hitem. induction Hin as [item items|item other items Hin IH].
  - exists item. simpl. by rewrite bool_decide_eq_true_2.
  - simpl. case_bool_decide; [by eexists|by apply IH].
Qed.

(** X19.  [navigateToModule] to a module that no menu item names (or with
    no menu configuration loaded) shows the error panel and does nothing
    else: nothing is requested from the asset loader, the cache and the
    current module stay as they were. *)
Theorem navigateToModule_unknown (E : Env) (w : World) (moduleId : string)
    (updateHistory : bool) :
  match menuConfig (app w) with
  | Some menu => Forall (λ item, item_module item ≠ moduleId) (menuItems menu)
  | None => True
  end →
  let w' := navigateToModule E w moduleId updateHistory in
  trace w'
  = trace w ++ [ShowError ("Impossible de charger le module: " +:+ moduleId)] ∧
  app w' = app w ∧ router w' = router w.
Proof.
  intros Hmenu. unfold navigateToModule.
  destruct (menuConfig (app w)) as [menu|]; [|done].
  by rewrite find_module_none.
Qed.

Lemma navigateToModule_unknown_witness :
  trace (navigateToModule sampleEnv sampleWorld "equipes" true)
  = [ShowError "Impossible de charger le module: equipes"].
Proof.
  apply (navigateToModule_unknown sampleEnv sampleWorld "equipes" true).
  simpl. repeat constructor; done.
Defined.

(** X20.  [navigateToModule], called as the router calls it (without a
    browser history entry), for a module id that the menu highlight can
    select (no quote, backslash or line break in it), named by a menu item,
    active or not, whose template can be fetched or is cached already, with
    an application title configured: the module becomes the current module
    and is cached; navigating to it again requests nothing from the asset
    loader and leaves the cache and the current module as they are. *)
Theorem navigateToModule_twice (E : Env) (w : World) (moduleId : string)
    (menu : MenuConfig) (item : MenuItem) (title html : string) :
  allChars selectorChar moduleId = true →
  menuConfig (app w) = Some menu →
  application_title menu = Some title →
  item ∈ menuItems menu → item_module item = moduleId →
  is_Some (loadedModules (app w) !! moduleId) ∨
  loadVersionedFile E (templateOf moduleId) = Returned html →
  let w1 := navigateToModule E w moduleId false in
  let w2 := navigateToModule E w1 moduleId false in
  currentModule (app w1) = Some moduleId ∧
  is_Some (loadedModules (app w1) !! moduleId) ∧
  fetches (trace w2) = fetches (trace w1) ∧
  app w2 = app w1.
Proof.
  intros _ Hmenu Htitle Hin Hitem Hsource w1 w2.
  destruct (find_module_some _ _ _ Hin Hitem) as (found & Hfind & _).
  assert (∀ v cached,
            menuConfig (app v) = Some menu →
            loadedModules (app v) !! moduleId = Some cached →
            let v' := navigateToModule E v moduleId false in
            app v' = setCurrentModule (Some moduleId) (app v) ∧
            fetches (trace v') = fetches (trace v)) as Hhit.
  { intros v cached Hv Hcached. unfold navigateToModule.
    rewrite Hv, Hfind, (loadModule_hit E v moduleId cached Hcached), Htitle.
    unfold fetches, renderModule, log.
    simpl; by rewrite !filter_app, !app_nil_r. }
  assert (currentModule (app w1) = Some moduleId ∧
          menuConfig (app w1) = Some menu ∧
          is_Some (loadedModules (app w1) !! moduleId)) as (Hcurrent & Hmenu1 & [cached Hcached]).
  { destruct (loadedModules (app w) !! moduleId) as [cached|] eqn:Hcache.
    - destruct (Hhit w cached Hmenu Hcache) as [Happ _].
      fold w1 in Happ. rewrite Happ. simpl. by rewrite Hmenu, Hcache.
    - destruct Hsource as [[? ?]|Hhtml]; [done|].
      subst w1. unfold navigateToModule.
      rewrite Hmenu, Hfind. unfold loadModule. rewrite Hcache, Hhtml, Htitle.
      simpl; rewrite Hmenu, lookup_insert_eq; eauto. }
  destruct (Hhit w1 cached Hmenu1 Hcached) as [Happ Hfetches].
  fold w2 in Happ, Hfetches.
  split_and!; [done|by eexists|done|].
  rewrite Happ. destruct (app w1). simpl in *. by rewrite Hcurrent.
Qed.

Lemma navigateToModule_twice_witness :
  let w1 := navigateToModule sampleEnv sampleWorld "archives" false in
  hasRoute (router sampleWorld) "archives" = false ∧
  currentModule (app w1) = Some "archives" ∧
  fetches (trace (navigateToModule sampleEnv w1 "archives" false))
  = fetches (trace w1).
Proof.
  intros w1.
  destruct (navigateToModule_twice sampleEnv sampleWorld "archives" sampleMenu
              (mkMenuItem "archives" "#archives" "Archives" None None false false)
              "Gestion Sportive"
              "<section>templates/modules/archives.html</section>")
    as (Hcurrent & _ & Hfetches & _);
    [reflexivity|reflexivity|reflexivity|by do 2 right; left|reflexivity
    |by right|].
  split_and!; [by vm_compute|exact Hcurrent|exact Hfetches].
Defined.

(** ** Class names and versioned URLs *)

Lemma string_app_assoc a b c : (a +:+ b) +:+ c = a +:+ b +:+ c.
Proof. induction a as [|x a IH]; [done|]. by rewrite !app_cons, IH. Qed.

Lemma upperAscii_hyphen c : c ≠ "-"%char → upperAscii c ≠ "-"%char.
Proof. by destruct c as [[] [] [] [] [] [] [] []]. Qed.

Lemma lacks_concat c parts :
  Forall (λ part, Str.lacks c part = true) parts →
  Str.lacks c (Str.join "" parts) = true.
Proof.
  induction 1 as [|part parts Hpart _ IH]; [done|].
  destruct parts as [|part' parts]; [done|].
  change (Str.join "" (part :: part' :: parts))
    with (part +:+ "" +:+ Str.join "" (part' :: parts)).
  by rewrite !lacks_app, Hpart, IH.
Qed.

(** X21.  The class name [getModuleClassName] computes for a module id made
    of words joined by hyphens is these words put together without the
    hyphens, each with its first character in upper case and the rest of it
    as it is, followed by [Module]; it has no hyphen.  It is computed for
    every id whose words start with a character of one byte. *)
Theorem getModuleClassName_shape (words : list string) :
  words ≠ [] →
  Forall (λ word, Str.lacks "-" word = true ∧
                  ∀ c rest, word = String c rest → N_of_ascii c < 128) words →
  ∃ names,
    getModuleClassName (Str.join "-" words)
    = Some (Str.join "" names +:+ "Module") ∧
    Forall2 (λ word name,
               match word with
               | "" => name = ""
               | String c rest => name = String (upperAscii c) rest
               end) words names ∧
    Str.lacks "-" (Str.join "" names +:+ "Module") = true.
Proof.
  intros Hsome Hwords. unfold getModuleClassName.
  rewrite split_join; [|done|by eapply Forall_impl; [done|intros ? []]].
  clear Hsome.
  assert (∃ names,
            mapM capitalize words = Some names ∧
            Forall2 (λ word name,
                       match word with
                       | "" => name = ""
                       | String c rest => name = String (upperAscii c) rest
                       end) words names ∧
            Forall (λ name, Str.lacks "-" name = true) names)
    as (names & -> & Hnames & Hlacks).
  { induction Hwords as [|word words [Hword Hbyte] _ (names & Hmap & Hnames & Hlacks)].
    { exists []. by split_and!. }
    destruct word as [|c rest].
    - exists ("" :: names). split_and!.
      + apply mapM_Some. constructor; [done|]. by apply mapM_Some.
      + by constructor.
      + by constructor.
    - exists (String (upperAscii c) rest :: names). split_and!.
      + apply mapM_Some. constructor; [|by apply mapM_Some]. simpl.
        specialize (Hbyte c rest eq_refl). apply N.ltb_lt in Hbyte.
        by rewrite Hbyte.
      + by constructor.
      + constructor; [|done]. simpl in *.
        apply andb_true_iff in Hword as [Hc ->].
        apply bool_decide_eq_true in Hc.
        by rewrite bool_decide_eq_true_2 by by apply upperAscii_hyphen. }
  simpl. eexists. split_and!; [done..|].
  by rewrite lacks_app, lacks_concat.
Qed.

Lemma getModuleClassName_shape_witness :
  getModuleClassName "gestion-des-athlètes" = Some "GestionDesAthlètesModule".
Proof.
  destruct (getModuleClassName_shape ["gestion"; "des"; "athlètes"])
    as (names & Hname & Hnames & _).
  - done.
  - do 3 (constructor;
          [split; [reflexivity|intros c rest [= <- <-]; by vm_compute]|]).
    constructor.
  - apply Forall2_cons_inv_l in Hnames as (n1 & names1 & -> & Hnames & ->).
    apply Forall2_cons_inv_l in Hnames as (n2 & names2 & -> & Hnames & ->).
    apply Forall2_cons_inv_l in Hnames as (n3 & names3 & -> & Hnames & ->).
    apply Forall2_nil_inv_l in Hnames as ->.
    exact Hname.
Defined.

Lemma split_app_any sep a b :
  Str.split sep (a +:+ String sep b) = Str.split sep a ++ Str.split sep b.
Proof.
  induction a as [|c a IH].
  - change ("" +:+ String sep b) with (String sep b). simpl.
    by rewrite decide_True.
  - rewrite app_cons. simpl. rewrite IH.
    destruct (decide (c = sep)); [done|].
    pose proof (split_nonempty sep a). by destruct (Str.split sep a).
Qed.

Lemma extensionOf_after_dot base ext :
  Str.lacks "." ext = true →
  Version.extensionOf (base +:+ "." +:+ ext) = Version.toLowerCase ext.
Proof.
  intros Hext. unfold Version.extensionOf.
  change (base +:+ "." +:+ ext) with (base +:+ String "." ext).
  by rewrite split_app_any, (split_lacks "." ext), last_snoc.
Qed.

Lemma includes_toLowerCase s :
  Version.includes "?" (Version.toLowerCase s) = Version.includes "?" s.
Proof.
  unfold Version.includes. f_equal.
  induction s as [|c s IH]; [done|]. simpl. rewrite IH. f_equal.
  by destruct c as [[] [] [] [] [] [] [] []].
Qed.

Lemma includes_app c a b :
  Version.includes c (a +:+ b) = Version.includes c a || Version.includes c b.
Proof. unfold Version.includes. by rewrite lacks_app, negb_andb. Qed.

Lemma versioned_extension url separator :
  Version.extensionOf (url +:+ separator +:+ "v=" +:+ Version.APP_BUILD) = "001".
Proof.
  replace (url +:+ separator +:+ "v=" +:+ Version.APP_BUILD)
    with ((url +:+ separator +:+ "v=2024.09.07") +:+ "." +:+ "001").
  - by apply extensionOf_after_dot.
  - by rewrite !string_app_assoc.
Qed.

(** X22.  A URL is versioned by its extension once only: applied to its own
    result without [forceVersion], [getVersionedUrl] changes nothing.  A
    forced call always appends the version; its result holds a [?], so a
    second forced call appends the version again after [&]. *)
Theorem getVersionedUrl_again (url : string) (forceVersion : bool) :
  Version.getVersionedUrl (Version.getVersionedUrl url forceVersion) false
  = Version.getVersionedUrl url forceVersion ∧
  Version.includes "?" (Version.getVersionedUrl url true) = true ∧
  Version.getVersionedUrl (Version.getVersionedUrl url true) true
  = Version.getVersionedUrl url true +:+ "&v=" +:+ Version.APP_BUILD.
Proof.
  assert (Version.includes "?" (Version.getVersionedUrl url true) = true)
    as Hincludes.
  { unfold Version.getVersionedUrl. rewrite orb_true_r.
    rewrite !includes_app.
    destruct (Version.includes "?" url); [done|]. by rewrite orb_true_r. }
  split_and!; [|done|].
  - unfold Version.getVersionedUrl.
    destruct (bool_decide (Version.extensionOf url ∈ Version.versionedFiles)
              || forceVersion) eqn:Hversioned.
    + rewrite versioned_extension. reflexivity.
    + apply orb_false_iff in Hversioned as [Hextension _].
      by rewrite Hextension.
  - unfold Version.getVersionedUrl at 1. rewrite orb_true_r, Hincludes.
    reflexivity.
Qed.

(** X23.  Without [forceVersion] the last piece of the URL after a [.]
    decides, letter case aside: the version is appended when that piece is
    [css], [js], [json] or [html], and the URL is returned as it is
    otherwise.  In particular a URL whose last piece holds a query string
    is returned as it is. *)
Theorem getVersionedUrl_by_extension (base extension : string) :
  Str.lacks "." extension = true →
  let url := base +:+ "." +:+ extension in
  Version.getVersionedUrl url false
  = (if bool_decide (Version.toLowerCase extension ∈ Version.versionedFiles)
     then url +:+ (if Version.includes "?" url then "&" else "?") +:+ "v="
          +:+ Version.APP_BUILD
     else url) ∧
  (Version.includes "?" extension = true →
   Version.getVersionedUrl url false = url).
Proof.
  intros Hextension url.
  assert (Version.getVersionedUrl url false
          = if bool_decide (Version.toLowerCase extension ∈ Version.versionedFiles)
            then url +:+ (if Version.includes "?" url then "&" else "?") +:+ "v="
                 +:+ Version.APP_BUILD
            else url) as Hurl.
  { unfold Version.getVersionedUrl, url.
    by rewrite extensionOf_after_dot, orb_false_r. }
  split; [done|]. intros Hquery. rewrite Hurl.
  rewrite bool_decide_eq_false_2; [done|].
  rewrite <- includes_toLowerCase in Hquery. unfold Version.versionedFiles.
  rewrite !elem_of_cons, elem_of_nil.
  intros [Heq|[Heq|[Heq|[Heq|[]]]]]; by rewrite Heq in Hquery.
Qed.

Lemma getVersionedUrl_by_extension_witness :
  Version.getVersionedUrl ("css/theme" +:+ "." +:+ "CSS") false
  = "css/theme.CSS?v=2024.09.07.001" ∧
  Version.getVersionedUrl ("js/app" +:+ "." +:+ "js?debug") false
  = "js/app.js?debug".
Proof.
  split.
  - destruct (getVersionedUrl_by_extension "css/theme" "CSS") as [-> _];
      reflexivity.
  - destruct (getVersionedUrl_by_extension "js/app" "js?debug") as [_ ->];
      reflexivity.
Defined.

(** * The router on its page *)

(** ** The address *)

Lemma kept_queryChar c : queryChar c = true → Fragment.kept c = true.
Proof. by destruct c as [[] [] [] [] [] [] [] []]. Qed.

Lemma allChars_impl (p q : ascii → bool) s :
  (∀ c, p c = true → q c = true) → allChars p s = true → allChars q s = true.
Proof.
  intros Himpl. induction s as [|c s IH]; [done|]. simpl.
  intros [Hc Hs]%andb_true_iff. by rewrite (Himpl c Hc), IH.
Qed.

Lemma encode_kept s : allChars Fragment.kept s = true → Fragment.encode s = s.
Proof.
  induction s as [|c s IH]; [done|]. simpl.
  intros [Hc Hs]%andb_true_iff. unfold Fragment.kept in Hc.
  apply andb_true_iff in Hc as [Hdropped Hescaped].
  apply negb_true_iff in Hdropped, Hescaped.
  by rewrite Hdropped, Hescaped, IH.
Qed.

(** A hash written with characters that the fragment keeps reads as it was
    assigned, its [#] aside when nothing follows it. *)
Lemma shown_kept s :
  allChars Fragment.kept s = true →
  Str.substring1 (Fragment.shown (String "#" s)) = s.
Proof.
  intros Hs. unfold Fragment.shown. simpl. rewrite encode_kept by done.
  by destruct s.
Qed.

Lemma build_queryChars (q : gmap string Value) :
  allChars queryChar (Query.buildQueryString q) = true.
Proof.
  assert (Forall (λ part, allChars queryChar part = true)
            (omap Query.queryPart (map_to_list q))) as Hparts.
  { apply Forall_forall. intros part ([k v] & _ & Hpart)%list_elem_of_omap.
    unfold Query.queryPart in Hpart. simpl in Hpart.
    destruct v; [| |done]; injection Hpart as <-;
      by rewrite ?allChars_app, !encode_queryChars. }
  unfold Query.buildQueryString.
  destruct (omap Query.queryPart (map_to_list q)) as [|part parts]; [done|].
  change ("?" +:+ Str.join "&" (part :: parts))
    with (String "?" "" +:+ Str.join "&" (part :: parts)).
  by rewrite allChars_app, join_queryChars.
Qed.


(** The hash after the step of [updateURL] for a path that the fragment
    keeps. *)
Lemma assignHash_kept location path (q : gmap string Value) :
  allChars Fragment.kept path = true →
  Str.substring1
    (location_hash
       (assignHash location
          (Address ("#" +:+ path +:+ Query.buildQueryString q))))
  = path +:+ Query.buildQueryString q.
Proof.
  intros Hpath. simpl. destruct (decide _) as [->|_]; [done|]. simpl.
  change ("#" +:+ path +:+ Query.buildQueryString q)
    with (String "#" (path +:+ Query.buildQueryString q)).
  apply shown_kept. rewrite allChars_app, Hpath. simpl.
  apply allChars_impl with (p := queryChar); [apply kept_queryChar|].
  apply build_queryChars.
Qed.

(** In hash mode [parseCurrentURL] reads the hash after its first
    character and nothing else. *)
Lemma parseCurrentURL_hash r location location' :
  hashMode (config r) = true →
  Str.substring1 (location_hash location)
  = Str.substring1 (location_hash location') →
  parseCurrentURL r location = parseCurrentURL r location'.
Proof. intros Hmode Hhash. unfold parseCurrentURL. by rewrite Hmode, Hhash. Qed.


(** ** The route of a path *)


(** ** The events of a call *)

Section PageFacts.
Context (E : Env) {H : Hooks}.




End PageFacts.
Section PageCalls.
Context (E : Env) {H : Hooks}.



End PageCalls.

Section Settled.
Context (E : Env) (check : Router → bool) (routeId : string) (route : Route).
Hypothesis identified : route_id route = routeId.
Hypothesis named : routeId ≠ "".
Hypothesis authorized : route_requiresAuth route = true → ∀ r, check r = true.
Hypothesis unquestioned : Str.lacks "?" (route_path route) = true.
Hypothesis kept : allChars Fragment.kept (route_path route) = true.






End Settled.

(** ** What an awaiting caller reads *)





(** The listener goes by the address, which holds the query and not the
    params: once it has run, the current route has the id and the query of
    the call and no params. *)
Example listener_resets_params :
  ∃ page' page'',
    navigateOnPage sampleEnv (H := sourceHooks) 1 samplePage "statistiques"
      {["annee" := VString "2024"]} {["tri" := VTrue]}
    = Some (true, page') ∧
    listen sampleEnv (H := sourceHooks) 1 1 page' = Some page'' ∧
    getCurrentRoute (router (page_world page''))
    = Some (prepare statistiquesRoute ∅ {["tri" := VTrue]}).
Proof.
  eexists _, _. split; [vm_compute; reflexivity|].
  split; [vm_compute; reflexivity|].
  vm_compute. reflexivity.
Qed.

(** ** Addresses read back *)

(** X9.  In hash mode [parseCurrentURL] reads back what [updateURL] writes,
    for a route whose path has no [?] and is made of characters that the
    address keeps as they are written, and whose query is made of portable
    entries: the hash assigned is [#path] followed by the built query
    string, and parsing the location after the assignment gives the path
    and the query of the route. *)
Theorem updateURL_then_parseCurrentURL (w : World) (route : Route)
    (location : Location) :
  hashMode (config (router w)) = true →
  Str.lacks "?" (route_path route) = true →
  allChars Fragment.kept (route_path route) = true →
  map_Forall Query.portable (route_query route) →
  let newHash :=
    "#" +:+ route_path route +:+ Query.buildQueryString (route_query route) in
  (∃ title, trace (updateURL w route) = trace w ++ [Address newHash; Title title]) ∧
  parseCurrentURL (router w) (assignHash location (Address newHash))
  = Some (route_path route, route_query route).
Proof.
  intros Hmode Hquestion Hkept Hquery newHash. split.
  - unfold updateURL, log, newHash. eexists. rewrite Hmode. simpl.
    by rewrite <- app_assoc.
  - transitivity (parseCurrentURL (router w) (mkLocation newHash "" "")).
    + apply parseCurrentURL_hash; [done|]. unfold newHash.
      by rewrite assignHash_kept.
    + by apply parseCurrentURL_address.
Qed.

Lemma updateURL_then_parseCurrentURL_witness :
  parseCurrentURL (router sampleWorld)
    (assignHash (mkLocation "#accueil" "/" "")
       (Address
          ("#" +:+ "statistiques" +:+
           Query.buildQueryString {["saison" := VString "2024/2025"]})))
  = Some ("statistiques", {["saison" := VString "2024/2025"]}).
Proof.
  destruct (updateURL_then_parseCurrentURL sampleWorld
              (prepare statistiquesRoute ∅ {["saison" := VString "2024/2025"]})
              (mkLocation "#accueil" "/" "")) as [_ Hparse].
  - reflexivity.
  - reflexivity.
  - reflexivity.
  - apply map_Forall_insert_2; [by vm_compute|apply map_Forall_empty].
  - exact Hparse.
Defined.

(** A path with a space does not read back: the address holds it
    percent-encoded and [parseCurrentURL] does not decode the path. *)
Example parseCurrentURL_reencoded :
  parseCurrentURL (router sampleWorld)
    (assignHash (mkLocation "#accueil" "/" "") (Address "#mon club"))
  = Some ("mon%20club", ∅).
Proof. reflexivity. Qed.
